(** * Scrutix invoice-audit pipeline: a shallow embedding of the TypeScript
    sources and the properties of its specification.

    Sources embedded here:
    - [billing-engine]    ([analyzeInvoice], [ZONE_RATE_MAP])
    - [audit-history]     ([categorizeOvercharge], [buildAuditRecord],
                           [saveAuditRecord], [loadAuditHistory],
                           [clearAuditHistory])
    - [weight-regression] ([runRegression], [sampleForDisplay],
                           [groupByProvider], [storeWeightData],
                           [loadWeightData], [clearWeightData])
    - [csv-normalizer]    ([normalizeWeight], [normalizeAmount],
                           [normalizePincode], [findHeaderRow],
                           [normalizeRows], [applyMapping])
    - [column-matcher]    ([normalise], [levenshtein], [similarity],
                           [detectColumns])

    Modelling conventions.
    - A JavaScript [number] is modelled twice.  [JsNum.num] is an exact
      rational, one of the two infinities, or NaN: the special values
      follow IEEE 754 as JavaScript exposes it (NaN is absorbing, every
      comparison with NaN is false) and the arithmetic on finite values is
      exact, without rounding, overflow or the sign of zero.  It carries
      the properties that rounding cannot change: labels, order, counts,
      storage, the special values, and runs on small integers.
      [Double.number] is the binary64 float itself, every operation
      rounded to the nearest float and overflowing to an infinity;
      [analyzeInvoice], [categorizeOvercharge] and [runRegression] are
      embedded a second time over it, and the properties of the tolerance,
      of the regression on degenerate inputs and of the overcharge
      breakdown are stated there.
    - A JavaScript string is a [string] of 8-bit characters; [toLowerCase]
      is the ASCII case mapping and whitespace is the ASCII whitespace.  A
      character outside ASCII stands as the bytes of its UTF-8 encoding.
    - Objects used as dictionaries are finite maps; property reads on object
      literals go through the prototype chain of [Object.prototype].
    - [localStorage] is a state passed through the persistence helpers,
      with the failures the helpers catch (no window, a read or a write
      that throws, a text that does not parse) as part of the state.  The
      clock and the random generator are readings handed to
      [buildAuditRecord].

    The first part of the file is the embedding, one section per source
    module; the second part states and proves the properties of the
    specification; the third part proves further properties of the same
    code and of the functions around it; the last part holds the
    properties stated on binary64 numbers. *)

From Stdlib Require Import QArith Qround Qabs ZArith Lia Lqa Bool Ascii String.
From Stdlib Require Import DecimalString Sorted.
From Stdlib Require Floats.
From stdpp Require Import gmap strings list fin_maps.

Local Open Scope Q_scope.

(* ------------------------------------------------------------------ *)
(** ** JavaScript numbers                                               *)
(* ------------------------------------------------------------------ *)

Module JsNum.

Inductive num : Type :=
| Fin (q : Q)
| PInf
| NInf
| NaN.

(** Finite results are kept in lowest terms, so that two computations of
    the same value give the same term. *)
Definition fin (q : Q) : num := Fin (Qred q).

Definition is_fin (a : num) : bool :=
  match a with Fin _ => true | _ => false end.

Definition isNaN (a : num) : bool :=
  match a with NaN => true | _ => false end.

(** The rational behind a finite number (0 for the special values). *)
Definition val (a : num) : Q :=
  match a with Fin q => q | _ => 0 end.

Definition Qsgn (q : Q) : Z := Z.sgn (Qnum q).

Definition neg (a : num) : num :=
  match a with
  | Fin q => fin (- q)
  | PInf => NInf
  | NInf => PInf
  | NaN => NaN
  end.

(** [a + b] *)
Definition add (a b : num) : num :=
  match a, b with
  | NaN, _ | _, NaN => NaN
  | Fin x, Fin y => fin (x + y)
  | PInf, NInf | NInf, PInf => NaN
  | PInf, _ | _, PInf => PInf
  | NInf, _ | _, NInf => NInf
  end.

(** [a - b] *)
Definition sub (a b : num) : num :=
  match a, b with
  | NaN, _ | _, NaN => NaN
  | Fin x, Fin y => fin (x - y)
  | PInf, PInf | NInf, NInf => NaN
  | PInf, _ | _, NInf => PInf
  | NInf, _ | _, PInf => NInf
  end.

Definition inf_of_sign (s : Z) : num :=
  match s with
  | Z0 => NaN
  | Zpos _ => PInf
  | Zneg _ => NInf
  end.

Definition sign (a : num) : Z :=
  match a with
  | Fin q => Qsgn q
  | PInf => 1%Z
  | NInf => (-1)%Z
  | NaN => 0%Z
  end.

(** [a * b]: 0 times an infinity is NaN. *)
Definition mul (a b : num) : num :=
  match a, b with
  | NaN, _ | _, NaN => NaN
  | Fin x, Fin y => fin (x * y)
  | _, _ => inf_of_sign (sign a * sign b)
  end.

(** [a / b]: a finite value over an infinity is 0, a non-zero value over 0
    is an infinity (of the sign of the dividend, the zero being taken
    positive), 0/0 and infinity over infinity are NaN. *)
Definition div (a b : num) : num :=
  match a, b with
  | NaN, _ | _, NaN => NaN
  | Fin x, Fin y =>
      if Qeq_bool y 0 then inf_of_sign (Qsgn x) else fin (x / y)
  | Fin _, _ => Fin 0
  | _, Fin y => inf_of_sign (sign a * (if Qeq_bool y 0 then 1 else Qsgn y))
  | _, _ => NaN
  end.

(** [a <= b] *)
Definition leb (a b : num) : bool :=
  match a, b with
  | NaN, _ | _, NaN => false
  | Fin x, Fin y => Qle_bool x y
  | NInf, _ | _, PInf => true
  | _, _ => false
  end.

(** [a < b] *)
Definition ltb (a b : num) : bool :=
  match a, b with
  | NaN, _ | _, NaN => false
  | Fin x, Fin y => negb (Qle_bool y x)
  | NInf, NInf | PInf, PInf => false
  | NInf, _ | _, PInf => true
  | _, _ => false
  end.

(** [a > b] and [a >= b] *)
Definition gtb (a b : num) : bool := ltb b a.
Definition geb (a b : num) : bool := leb b a.

(** [a === b] on numbers *)
Definition eqb (a b : num) : bool :=
  match a, b with
  | Fin x, Fin y => Qeq_bool x y
  | PInf, PInf | NInf, NInf => true
  | _, _ => false
  end.

(** Equality of numbers as values: fractions are compared by [Qeq]. *)
Definition num_eq (a b : num) : Prop :=
  match a, b with
  | Fin x, Fin y => x == y
  | PInf, PInf | NInf, NInf | NaN, NaN => True
  | _, _ => False
  end.

Definition of_Z (z : Z) : num := Fin (inject_Z z).
Definition of_nat (n : nat) : num := of_Z (Z.of_nat n).

(** [Math.round(a)]: the nearest integer, halves going up. *)
Definition Math_round (a : num) : num :=
  match a with
  | Fin q => of_Z (Qfloor (q + (1 # 2)))
  | _ => a
  end.

(** [Math.max(a, b)], [Math.min(a, b)] *)
Definition Math_max (a b : num) : num :=
  match a, b with
  | NaN, _ | _, NaN => NaN
  | _, _ => if leb a b then b else a
  end.

Definition Math_min (a b : num) : num :=
  match a, b with
  | NaN, _ | _, NaN => NaN
  | _, _ => if leb a b then a else b
  end.

(** [Number(a.toFixed(2))].  [toFixed] prints the integer [n] for which
    [n / 100 - a] is closest to zero, the larger one on a tie, after taking
    the sign off a negative [a]; from 10^21 on it prints the number itself.
    [Number] reads the digits back. *)
Definition toFixed2 (a : num) : num :=
  match a with
  | Fin q =>
      if Qle_bool (inject_Z (10 ^ 21)) (Qabs q) then a
      else if Qle_bool 0 q
           then fin (inject_Z (Qfloor (q * 100 + (1 # 2))) / 100)
           else fin (- (inject_Z (Qfloor ((- q) * 100 + (1 # 2))) / 100))
  | _ => a
  end.

End JsNum.

Export JsNum.

Declare Scope num_scope.
Delimit Scope num_scope with num.
Bind Scope num_scope with num.
Notation "a + b" := (add a b) : num_scope.
Notation "a - b" := (sub a b) : num_scope.
Notation "a * b" := (mul a b) : num_scope.
Notation "a / b" := (div a b) : num_scope.
Notation "a <=? b" := (leb a b) : num_scope.
Notation "a <? b" := (ltb a b) : num_scope.
Notation "a >? b" := (gtb a b) : num_scope.
Notation "a >=? b" := (geb a b) : num_scope.

(** Decimal literals: [dec n k] is [n / 10^k]. *)
Definition dec (n : Z) (k : nat) : num := fin (inject_Z n / inject_Z (10 ^ Z.of_nat k)).

(* ------------------------------------------------------------------ *)
(** ** Property reads on object literals                                *)
(* ------------------------------------------------------------------ *)

(** The names every object literal inherits from [Object.prototype].  All
    of them hold functions (or, for [__proto__], the prototype object):
    truthy values that are not strings. *)
Definition Object_prototype_names : list string :=
  [ "constructor"; "__defineGetter__"; "__defineSetter__"; "hasOwnProperty";
    "__lookupGetter__"; "__lookupSetter__"; "isPrototypeOf";
    "propertyIsEnumerable"; "toString"; "valueOf"; "__proto__";
    "toLocaleString" ]%string.

(** What [obj[k]] gives on an object literal with the own properties
    [own]: an own value, an inherited member, or [undefined]. *)
Inductive JsRead (A : Type) : Type :=
| Own (a : A)
| Inherited (name : string)
| Undefined.
Arguments Own {A} a.
Arguments Inherited {A} name.
Arguments Undefined {A}.

Fixpoint assoc {A : Type} (k : string) (own : list (string * A)) : option A :=
  match own with
  | [] => None
  | (k', a) :: rest => if String.eqb k k' then Some a else assoc k rest
  end.

Definition inb (k : string) (l : list string) : bool :=
  existsb (String.eqb k) l.

Definition read_literal {A : Type} (own : list (string * A)) (k : string) : JsRead A :=
  match assoc k own with
  | Some a => Own a
  | None => if inb k Object_prototype_names then Inherited k else Undefined
  end.

(** [ToNumber] of a value that is a number or [undefined]. *)
Definition ToNumber (v : option num) : num :=
  match v with Some n => n | None => NaN end.

(* ------------------------------------------------------------------ *)
(** ** billing-engine: [analyzeInvoice]                                 *)
(* ------------------------------------------------------------------ *)

(** A row as the loop of [analyzeInvoice] reads it: strings for the AWB,
    the order type and the zones, numbers for the weights and the amount
    ([Number] of a number is that number). *)
Record CsvRow : Type := mkCsvRow {
  AWB : string;
  OrderType : string;
  BilledWeight : num;
  ActualWeight : num;
  BilledZone : string;
  ActualZone : string;
  TotalBilledAmount : num
}.

Record ContractRules : Type := mkContractRules {
  zone_a_rate : num;
  zone_b_rate : num;
  zone_c_rate : num;
  cod_fee_percentage : num;
  rto_flat_fee : num
}.

Record Discrepancy : Type := mkDiscrepancy {
  awb_number : string;
  issue_type : string;
  billed_amount : num;
  correct_amount : num;
  difference : num
}.

Record AnalysisResult : Type := mkAnalysisResult {
  discrepancies : list Discrepancy;
  totalOvercharge : num;
  totalRows : nat;
  totalBilled : num
}.

Definition ZONE_RATE_MAP : list (string * string) :=
  [ ("A", "zone_a_rate"); ("B", "zone_b_rate"); ("C", "zone_c_rate") ]%string.

(** [contractRules[key]] for a key of the rate card: its own numeric
    fields; [undefined] for a name it does not have. *)
Definition contract_read (c : ContractRules) (key : string) : option num :=
  if String.eqb key "zone_a_rate" then Some (zone_a_rate c)
  else if String.eqb key "zone_b_rate" then Some (zone_b_rate c)
  else if String.eqb key "zone_c_rate" then Some (zone_c_rate c)
  else if String.eqb key "cod_fee_percentage" then Some (cod_fee_percentage c)
  else if String.eqb key "rto_flat_fee" then Some (rto_flat_fee c)
  else None.

(** [const rateKey = ZONE_RATE_MAP[actualZone]
     const baseRate = rateKey ? contractRules[rateKey] : 0].
    An own entry is a non-empty string, hence truthy, and names a rate.  An
    inherited member is truthy as well; used as a key it is turned into its
    source text, which names no field of the rate card: the read gives
    [undefined]. *)
Definition baseRate (c : ContractRules) (row : CsvRow) : option num :=
  match read_literal ZONE_RATE_MAP (ActualZone row) with
  | Own rateKey => contract_read c rateKey
  | Inherited _ => None
  | Undefined => Some (Fin 0)
  end.

(** [const expectedFreight = baseRate * billedWeight] *)
Definition expectedFreight (c : ContractRules) (row : CsvRow) : num :=
  (ToNumber (baseRate c row) * BilledWeight row)%num.

Definition expectedTotal (c : ContractRules) (row : CsvRow) : num :=
  let expectedFreight := expectedFreight c row in
  if String.eqb (OrderType row) "COD"
  then (expectedFreight + (expectedFreight * cod_fee_percentage c) / Fin 100)%num
  else expectedFreight.

(** [const difference = totalBilledAmount - expectedTotal] *)
Definition rowDifference (c : ContractRules) (row : CsvRow) : num :=
  (TotalBilledAmount row - expectedTotal c row)%num.

(** The issue labels of a flagged row, in the order they are pushed. *)
Definition reasons (c : ContractRules) (row : CsvRow) : list string :=
  let reasons := [] in
  let reasons :=
    if negb (String.eqb (BilledZone row) (ActualZone row))
    then reasons ++ ["Zone Mismatch"%string] else reasons in
  let reasons :=
    if (BilledWeight row >? ActualWeight row)%num
    then reasons ++ ["Weight Overcharge"%string] else reasons in
  let reasons :=
    if String.eqb (OrderType row) "Prepaid"
       && (TotalBilledAmount row >? expectedFreight c row + Fin 1)%num
    then reasons ++ ["Invalid COD Charge"%string] else reasons in
  if Nat.eqb (length reasons) 0
  then reasons ++ ["Rate Overcharge"%string] else reasons.

(** [reasons.join(", ")] *)
Definition join (sep : string) (l : list string) : string := String.concat sep l.

(** One turn of the loop over [csvData]: the state is the array of
    discrepancies built so far and the running [totalBilled]. *)
Definition auditRow (c : ContractRules)
    (st : list Discrepancy * num) (row : CsvRow) : list Discrepancy * num :=
  let '(discrepancies, totalBilled) := st in
  let totalBilled := (totalBilled + TotalBilledAmount row)%num in
  let difference := rowDifference c row in
  if (difference <=? Fin 1)%num then (discrepancies, totalBilled)
  else
    (discrepancies ++
       [ {| awb_number := AWB row;
            issue_type := join ", " (reasons c row);
            billed_amount := TotalBilledAmount row;
            correct_amount := toFixed2 (expectedTotal c row);
            difference := toFixed2 difference |} ],
     totalBilled).

(** [discrepancies.reduce((sum, d) => sum + d.difference, 0)] *)
Definition sumDifferences (ds : list Discrepancy) : num :=
  fold_left (fun sum d => (sum + difference d)%num) ds (Fin 0).

Definition analyzeInvoice (csvData : list CsvRow) (contractRules : ContractRules)
    : AnalysisResult :=
  let '(discrepancies, totalBilled) :=
    fold_left (auditRow contractRules) csvData ([], Fin 0) in
  let totalOvercharge := sumDifferences discrepancies in
  {| discrepancies := discrepancies;
     totalOvercharge := toFixed2 totalOvercharge;
     totalRows := length csvData;
     totalBilled := toFixed2 totalBilled |}.

(** The contract and the row of the end-to-end scenario. *)
Definition scenario_contract : ContractRules :=
  {| zone_a_rate := Fin 40; zone_b_rate := Fin 55; zone_c_rate := Fin 75;
     cod_fee_percentage := dec 15 1; rto_flat_fee := Fin 0 |}.

Definition scenario_row : CsvRow :=
  {| AWB := "X1"; OrderType := "Prepaid";
     BilledWeight := Fin 1; ActualWeight := Fin 1;
     BilledZone := "A"; ActualZone := "A";
     TotalBilledAmount := Fin 45 |}.

(** The same shipment with a zone that names a member of
    [Object.prototype]. *)
Definition inherited_zone_row : CsvRow :=
  {| AWB := "X1"; OrderType := "Prepaid";
     BilledWeight := Fin 1; ActualWeight := Fin 1;
     BilledZone := "A"; ActualZone := "constructor";
     TotalBilledAmount := Fin 45 |}.

(** The discrepancies a list of rows gives rise to, in order. *)
Definition flagged (c : ContractRules) (rows : list CsvRow) : list Discrepancy :=
  fst (fold_left (auditRow c) rows ([], Fin 0)).

(* ------------------------------------------------------------------ *)
(** ** Strings                                                          *)
(* ------------------------------------------------------------------ *)

Module JsString.

Definition is_upper (ch : ascii) : bool :=
  let n := nat_of_ascii ch in (65 <=? n)%nat && (n <=? 90)%nat.

Definition lower_char (ch : ascii) : ascii :=
  if is_upper ch then ascii_of_nat (nat_of_ascii ch + 32) else ch.

(** [s.toLowerCase()] *)
Fixpoint toLowerCase (s : string) : string :=
  match s with
  | EmptyString => EmptyString
  | String ch rest => String (lower_char ch) (toLowerCase rest)
  end.

(** The characters [\s] and [trim] take for white space: tab, line feed,
    vertical tab, form feed, carriage return and space. *)
Definition is_space (ch : ascii) : bool :=
  let n := nat_of_ascii ch in
  ((9 <=? n)%nat && (n <=? 13)%nat) || (n =? 32)%nat.

Definition is_digit (ch : ascii) : bool :=
  let n := nat_of_ascii ch in (48 <=? n)%nat && (n <=? 57)%nat.

Fixpoint trimStart (s : string) : string :=
  match s with
  | EmptyString => EmptyString
  | String ch rest => if is_space ch then trimStart rest else s
  end.

(** Drops the white space at the end: a character is kept when it is not
    a space or when something is kept after it. *)
Fixpoint trimEnd (s : string) : string :=
  match s with
  | EmptyString => EmptyString
  | String ch rest =>
      match trimEnd rest with
      | EmptyString => if is_space ch then EmptyString else String ch EmptyString
      | kept => String ch kept
      end
  end.

(** [s.trim()] *)
Definition trim (s : string) : string := trimEnd (trimStart s).

(** [s.startsWith(p)] *)
Fixpoint startsWith (p s : string) : bool :=
  match p, s with
  | EmptyString, _ => true
  | String a p', String b s' => Ascii.eqb a b && startsWith p' s'
  | String _ _, EmptyString => false
  end.

(** [s.includes(sub)] *)
Fixpoint includes (s sub : string) : bool :=
  startsWith sub s ||
  match s with
  | EmptyString => false
  | String _ rest => includes rest sub
  end.

Definition of_rev (cur : list ascii) : string :=
  string_of_list_ascii (rev cur).

(** [s.split(sep)] for a non-empty separator: the pieces between the
    occurrences of [sep], found from left to right without overlap.
    [skip] counts the characters of a separator still to be passed over;
    [cur] is the current piece, last character first. *)
Fixpoint split_go (sep : string) (skip : nat) (cur : list ascii) (s : string)
    : list string :=
  match s with
  | EmptyString => [of_rev cur]
  | String ch rest =>
      match skip with
      | S k => split_go sep k cur rest
      | O =>
          if startsWith sep s
          then of_rev cur :: split_go sep (String.length sep - 1) [] rest
          else split_go sep 0 (ch :: cur) rest
      end
  end.

Definition split (sep s : string) : list string := split_go sep 0 [] s.

End JsString.

Export JsString.

(* ------------------------------------------------------------------ *)
(** ** audit-history: [categorizeOvercharge]                            *)
(* ------------------------------------------------------------------ *)

Record OverchargeByType : Type := mkOverchargeByType {
  weightMismatch : num;
  zoneMismatch : num;
  duplicateAWB : num;
  incorrectCOD : num;
  rtoMismatch : num;
  other : num
}.

(** [const types = d.issue_type.split(", ").map((t) => t.trim())] *)
Definition issueTypes (d : Discrepancy) : list string :=
  map trim (split ", " (issue_type d)).

(** [const share = d.difference / (types.length || 1)] *)
Definition share (d : Discrepancy) : num :=
  let n := length (issueTypes d) in
  (difference d / of_nat (if Nat.eqb n 0 then 1 else n))%num.

(** The body of the inner loop: the first bucket whose keyword the
    lower-cased label contains takes the share. *)
Definition addShare (share : num) (result : OverchargeByType) (type : string)
    : OverchargeByType :=
  let lower := toLowerCase type in
  let '(mkOverchargeByType w z dup cod rto oth) := result in
  if includes lower "weight" then mkOverchargeByType (w + share) z dup cod rto oth
  else if includes lower "zone" then mkOverchargeByType w (z + share) dup cod rto oth
  else if includes lower "duplicate" then mkOverchargeByType w z (dup + share) cod rto oth
  else if includes lower "cod" then mkOverchargeByType w z dup (cod + share) rto oth
  else if includes lower "rto" then mkOverchargeByType w z dup cod (rto + share) oth
  else mkOverchargeByType w z dup cod rto (oth + share).

(** The body of the outer loop, for one discrepancy. *)
Definition addDiscrepancy (result : OverchargeByType) (d : Discrepancy)
    : OverchargeByType :=
  fold_left (addShare (share d)) (issueTypes d) result.

(** The buckets before the final rounding. *)
Definition accumulateOvercharge (discrepancies : list Discrepancy)
    : OverchargeByType :=
  fold_left addDiscrepancy discrepancies
    (mkOverchargeByType (Fin 0) (Fin 0) (Fin 0) (Fin 0) (Fin 0) (Fin 0)).

(** [Math.round(x * 100) / 100] *)
Definition round2 (x : num) : num := (Math_round (x * Fin 100) / Fin 100)%num.

Definition categorizeOvercharge (discrepancies : list Discrepancy)
    : OverchargeByType :=
  let '(mkOverchargeByType w z dup cod rto oth) :=
    accumulateOvercharge discrepancies in
  mkOverchargeByType (round2 w) (round2 z) (round2 dup) (round2 cod)
    (round2 rto) (round2 oth).

(** The six buckets of a breakdown, and their sum. *)
Definition buckets (o : OverchargeByType) : list num :=
  [ weightMismatch o; zoneMismatch o; duplicateAWB o; incorrectCOD o;
    rtoMismatch o; other o ].

Definition bucketSum (o : OverchargeByType) : Q :=
  fold_right (fun b acc => val b + acc) 0 (buckets o).

(** The bucket a label is counted in, as a projection of the breakdown. *)
Inductive Bucket : Type :=
| BWeight | BZone | BDuplicate | BCod | BRto | BOther.

Definition bucketOf (type : string) : Bucket :=
  let lower := toLowerCase type in
  if includes lower "weight" then BWeight
  else if includes lower "zone" then BZone
  else if includes lower "duplicate" then BDuplicate
  else if includes lower "cod" then BCod
  else if includes lower "rto" then BRto
  else BOther.


Definition bucketValue (b : Bucket) (o : OverchargeByType) : num :=
  match b with
  | BWeight => weightMismatch o
  | BZone => zoneMismatch o
  | BDuplicate => duplicateAWB o
  | BCod => incorrectCOD o
  | BRto => rtoMismatch o
  | BOther => other o
  end.

(** A label counted in the weight, zone, COD or other bucket. *)
Definition engineBucket (t : string) : Prop :=
  bucketOf t <> BDuplicate /\ bucketOf t <> BRto.

(** A row billed in the wrong zone and above its weight: two labels. *)
Definition dual_label_row : CsvRow :=
  {| AWB := "X3"; OrderType := "COD";
     BilledWeight := Fin 2; ActualWeight := Fin 1;
     BilledZone := "B"; ActualZone := "A";
     TotalBilledAmount := Fin 100 |}.

(* ------------------------------------------------------------------ *)
(** ** weight-regression: [runRegression]                               *)
(* ------------------------------------------------------------------ *)

(** How a call ends: with a value, or with a thrown error. *)
Inductive completion (A : Type) : Type :=
| Return (a : A)
| Throw (error : string).
Arguments Return {A} a.
Arguments Throw {A} error.

Module WeightRegression.

Record WeightDataPoint : Type := mkWeightDataPoint {
  provider : string;
  awb : string;
  declaredWeight_g : num;
  billedWeight_g : num;
  date : num
}.

Record RegressionResult : Type := mkRegressionResult {
  result_provider : string;
  pointCount : nat;
  slope : num;
  intercept : num;
  r2 : num;
  avgOverchargePct : num
}.

Definition MIN_POINTS_FOR_REGRESSION : nat := 30.

(** The five running sums of the first loop. *)
Record Sums : Type := mkSums {
  sumX : num;
  sumY : num;
  sumXY : num;
  sumX2 : num;
  sumOverchargePct : num
}.

Definition addPoint (s : Sums) (p : WeightDataPoint) : Sums :=
  let x := declaredWeight_g p in
  let y := billedWeight_g p in
  {| sumX := sumX s + x;
     sumY := sumY s + y;
     sumXY := sumXY s + x * y;
     sumX2 := sumX2 s + x * x;
     sumOverchargePct :=
       if (declaredWeight_g p >? Fin 0)%num
       then sumOverchargePct s
            + (billedWeight_g p - declaredWeight_g p) / declaredWeight_g p
       else sumOverchargePct s |}.

Definition sums (points : list WeightDataPoint) : Sums :=
  fold_left addPoint points (mkSums (Fin 0) (Fin 0) (Fin 0) (Fin 0) (Fin 0)).

(** [const denom = n * sumX2 - sumX * sumX] *)
Definition denom (points : list WeightDataPoint) : num :=
  let n := of_nat (length points) in
  let s := sums points in
  (n * sumX2 s - sumX s * sumX s)%num.

(** The second loop: total and residual sums of squares ([** 2] is the
    product of the value with itself). *)
Definition addSquares (m b meanY : num) (acc : num * num) (p : WeightDataPoint)
    : num * num :=
  let '(ssTot, ssRes) := acc in
  let y := billedWeight_g p in
  let yHat := (m * declaredWeight_g p + b)%num in
  ((ssTot + (y - meanY) * (y - meanY))%num,
   (ssRes + (y - yHat) * (y - yHat))%num).

Definition runRegression (points : list WeightDataPoint)
    : completion (option RegressionResult) :=
  let n := length points in
  if (n <? MIN_POINTS_FOR_REGRESSION)%nat then Return None
  else
    let s := sums points in
    let n' := of_nat n in
    let denom := denom points in
    if eqb denom (Fin 0) then Return None
    else
      let m := ((n' * sumXY s - sumX s * sumY s) / denom)%num in
      let b := ((sumY s - m * sumX s) / n')%num in
      let meanY := (sumY s / n')%num in
      let '(ssTot, ssRes) := fold_left (addSquares m b meanY) points (Fin 0, Fin 0) in
      let r2 := if eqb ssTot (Fin 0) then Fin 1 else (Fin 1 - ssRes / ssTot)%num in
      match points with
      | [] => Throw "TypeError: Cannot read properties of undefined (reading 'provider')"
      | p0 :: _ =>
          Return (Some
            {| result_provider := provider p0;
               pointCount := n;
               slope := Math_round (m * Fin 10000) / Fin 10000;
               intercept := Math_round (b * Fin 100) / Fin 100;
               r2 := Math_round (r2 * Fin 10000) / Fin 10000;
               avgOverchargePct :=
                 Math_round ((sumOverchargePct s / n') * Fin 10000) / Fin 100 |})
      end.

(** The average overcharge in the words of the specification: the mean,
    over the points whose declared weight is greater than 0, of
    [(billed - declared) / declared * 100], rounded to 2 decimals. *)
Definition positivePoints (points : list WeightDataPoint) : list WeightDataPoint :=
  List.filter (fun p => (declaredWeight_g p >? Fin 0)%num) points.

Definition overchargePct (p : WeightDataPoint) : num :=
  ((billedWeight_g p - declaredWeight_g p) / declaredWeight_g p * Fin 100)%num.

Definition specAvgOverchargePct (points : list WeightDataPoint) : num :=
  let pos := positivePoints points in
  let total := fold_left (fun acc p => (acc + overchargePct p)%num) pos (Fin 0) in
  round2 (total / of_nat (length pos)).

(** A sample of 30 points: 29 shipments declared at 100 g and billed at
    110 g, and one billed at 500 g whose declared weight was stored as 0 g. *)
Definition point (x y : Z) : WeightDataPoint :=
  {| provider := "Delhivery"; awb := "AWB"; declaredWeight_g := of_Z x;
     billedWeight_g := of_Z y; date := Fin 0 |}.

Definition sample30 : list WeightDataPoint :=
  repeat (point 100 110) 29 ++ [point 0 500].

(** The declared weights of a point set, as exact values. *)
Definition declared (points : list WeightDataPoint) : list Q :=
  map (fun p => val (declaredWeight_g p)) points.

End WeightRegression.

(* ------------------------------------------------------------------ *)
(** ** csv-normalizer: [normalizeWeight], [findHeaderRow]               *)
(* ------------------------------------------------------------------ *)

(** The values a cell of a parsed file can hold. *)
Inductive JsValue : Type :=
| JsUndefined
| JsNull
| JsBoolean (b : bool)
| JsNumber (n : num)
| JsString (s : string).

Module CsvNormalizer.

(** Splits off the longest prefix of digits. *)
Fixpoint spanDigits (s : string) : string * string :=
  match s with
  | String ch rest =>
      if is_digit ch
      then let '(ds, tail) := spanDigits rest in (String ch ds, tail)
      else (EmptyString, s)
  | EmptyString => (EmptyString, EmptyString)
  end.

Fixpoint skipSpaces (s : string) : string :=
  match s with
  | String ch rest => if is_space ch then skipSpaces rest else s
  | EmptyString => EmptyString
  end.

(** Drops one leading [ch] when there is one. *)
Definition optional (ch : ascii) (s : string) : string :=
  match s with
  | String c rest => if Ascii.eqb c ch then rest else s
  | EmptyString => s
  end.

(** The capturing group at the start of both weight patterns, one digit
    or more, an optional dot, then digits ([\d+ \.? \d*] without the
    spaces): the text it captures in [s] and what follows it.  Nothing that can come after the group in the two
    patterns below starts with a digit or a dot, so the longest capture is
    the only one a match can use. *)
Definition matchNumeral (s : string) : option (string * string) :=
  let '(ip, s1) := spanDigits s in
  match ip with
  | EmptyString => None
  | _ =>
      match s1 with
      | String "." s2 =>
          let '(fp, s3) := spanDigits s2 in Some (ip ++ "." ++ fp, s3)
      | _ => Some (ip, s1)
      end
  end%string.

(** [str.match] on the gram pattern: the group, white space, then
    [gr?a?m?s?] up to the end of the string.  Gives the captured group. *)
Definition gramMatch (str : string) : option string :=
  match matchNumeral str with
  | Some (numeral, rest) =>
      match skipSpaces rest with
      | String "g" unit =>
          match optional "s" (optional "m" (optional "a" (optional "r" unit))) with
          | EmptyString => Some numeral
          | _ => None
          end
      | _ => None
      end
  | None => None
  end.

(** [str.match] on the kilogram pattern: the group, white space, then
    [kgs?] up to the end of the string.  Gives the captured group. *)
Definition kgMatch (str : string) : option string :=
  match matchNumeral str with
  | Some (numeral, rest) =>
      match skipSpaces rest with
      | String "k" (String "g" unit) =>
          match optional "s" unit with
          | EmptyString => Some numeral
          | _ => None
          end
      | _ => None
      end
  | None => None
  end.

(** The number a string of digits denotes. *)
Fixpoint digitsValue (acc : Z) (s : string) : Z :=
  match s with
  | String ch rest => digitsValue (10 * acc + Z.of_nat (nat_of_ascii ch - 48)) rest
  | EmptyString => acc
  end.

(** The exponent part [e], [e+] or [e-] followed by digits, when there is
    one at the start of [s]; 0 otherwise. *)
Definition exponentPart (s : string) : Z :=
  match s with
  | String e rest =>
      if Ascii.eqb e "e" || Ascii.eqb e "E" then
        let '(neg, rest') :=
          match rest with
          | String "-" r => (true, r)
          | String "+" r => (false, r)
          | _ => (false, rest)
          end in
        let '(ds, _) := spanDigits rest' in
        match ds with
        | EmptyString => 0%Z
        | _ => if neg then (- digitsValue 0 ds)%Z else digitsValue 0 ds
        end
      else 0%Z
  | EmptyString => 0%Z
  end.

(** [parseFloat(s)]: the value of the longest prefix of [s], white space
    skipped, that is a decimal literal; NaN when there is none. *)
Definition parseFloat (s : string) : num :=
  let s := trimStart s in
  let '(negative, s) :=
    match s with
    | String "-" r => (true, r)
    | String "+" r => (false, r)
    | _ => (false, s)
    end in
  if startsWith "Infinity" s then (if negative then NInf else PInf)
  else
    let '(ip, s1) := spanDigits s in
    let '(fp, s2) :=
      match s1 with
      | String "." r => spanDigits r
      | _ => (EmptyString, s1)
      end in
    match (ip ++ fp)%string with
    | EmptyString => NaN
    | ds =>
        let e := (exponentPart s2 - Z.of_nat (String.length fp))%Z in
        let q := inject_Z (digitsValue 0 ds) * Qpower 10 e in
        fin (if negative then - q else q)
    end.

Definition normalizeWeight (raw : JsValue) : num :=
  match raw with
  | JsUndefined | JsNull => Fin 0
  | JsString EmptyString => Fin 0
  | JsNumber n => n
  | JsBoolean _ | JsString _ =>
      let text :=
        match raw with
        | JsString s => s
        | JsBoolean true => "true"
        | _ => "false"
        end%string in
      let str := trim (toLowerCase text) in
      match gramMatch str with
      | Some g1 => (parseFloat g1 / Fin 1000)%num
      | None =>
          match kgMatch str with
          | Some g1 => parseFloat g1
          | None =>
              let n := parseFloat str in
              if isNaN n then Fin 0 else n
          end
      end
  end.

(** A string of digits. *)
Fixpoint allDigits (s : string) : bool :=
  match s with
  | EmptyString => true
  | String ch rest => is_digit ch && allDigits rest
  end.

Definition HEADER_KEYWORDS : list string :=
  [ "awb"; "zone"; "weight"; "amount"; "type"; "order";
    "pincode"; "date"; "cod"; "shipment"; "invoice"; "billed";
    "actual"; "freight"; "tracking" ]%string.

(** [HEADER_KEYWORDS.filter((kw) => cellsLower.some((cell) =>
    cell.includes(kw))).length] *)
Definition matchCount (row : list string) : nat :=
  let cellsLower := map (fun c => trim (toLowerCase c)) row in
  length (List.filter (fun kw => existsb (fun cell => includes cell kw) cellsLower)
            HEADER_KEYWORDS).

(** The loop of [findHeaderRow] from row [i] on; [break] ends it. *)
Fixpoint scanRows (rows : list (list string)) (i bestIndex bestMatches : nat) : nat :=
  match rows with
  | [] => bestIndex
  | row :: rest =>
      if (length row <? 2)%nat then scanRows rest (S i) bestIndex bestMatches
      else
        let matchCount := matchCount row in
        let '(bestIndex, bestMatches) :=
          if (bestMatches <? matchCount)%nat
          then (i, matchCount) else (bestIndex, bestMatches) in
        if (4 <=? matchCount)%nat then bestIndex
        else scanRows rest (S i) bestIndex bestMatches
  end.

Definition findHeaderRow (rows : list (list string)) : nat :=
  scanRows (firstn (Nat.min (length rows) 10) rows) 0 0 0.

(** The keyword count of row [i] as the loop sees it: a row of fewer than
    two cells, or no row, counts for nothing. *)
Definition rowScore (rows : list (list string)) (i : nat) : nat :=
  match nth_error rows i with
  | Some row => if (length row <? 2)%nat then 0%nat else matchCount row
  | None => 0%nat
  end.

(** Row [j] is reached by the loop: it is one of the first 10 rows and no
    row before it matched 4 keywords or more. *)
Definition scanned (rows : list (list string)) (j : nat) : Prop :=
  (j < Nat.min (length rows) 10)%nat /\
  forall i, (i < j)%nat -> (rowScore rows i < 4)%nat.

(** The same for a list of rows scanned to its end. *)
Definition reached (l : list (list string)) (j : nat) : Prop :=
  (j < length l)%nat /\
  forall i, (i < j)%nat -> (rowScore l i < 4)%nat.

(** What the loop returns from row [i] on, given the best row so far:
    either no reached row beats [bestMatches] and the best row stays, or
    the result is the first reached row with the highest count. *)
Definition keepsBest (l : list (list string)) (bestIndex bestMatches k : nat) : Prop :=
  k = bestIndex /\ forall j, reached l j -> (rowScore l j <= bestMatches)%nat.

Definition firstBest (l : list (list string)) (i bestMatches k : nat) : Prop :=
  exists j, reached l j /\ k = (i + j)%nat /\ (bestMatches < rowScore l j)%nat /\
            forall j', reached l j' ->
                       (rowScore l j' <= rowScore l j)%nat /\
                       (rowScore l j' = rowScore l j -> (j <= j')%nat).

(** The locator in the words of the specification: the candidates are the
    rows with at least 2 non-empty cells. *)
Definition nonEmptyCells (row : list string) : nat :=
  length (List.filter (fun c => negb (String.eqb c "")) row).

(** The cells of a row that contain a keyword: what the comment above
    [findHeaderRow] counts, "a row is considered a header when 2 or more
    of its cells contain one of the keywords". *)
Definition keywordCells (row : list string) : nat :=
  length (List.filter
            (fun cell => existsb (fun kw => includes cell kw) HEADER_KEYWORDS)
            (map (fun c => trim (toLowerCase c)) row)).

Fixpoint specScanRows (rows : list (list string)) (i bestIndex bestMatches : nat) : nat :=
  match rows with
  | [] => bestIndex
  | row :: rest =>
      if (nonEmptyCells row <? 2)%nat then specScanRows rest (S i) bestIndex bestMatches
      else
        let matchCount := matchCount row in
        let '(bestIndex, bestMatches) :=
          if (bestMatches <? matchCount)%nat
          then (i, matchCount) else (bestIndex, bestMatches) in
        if (4 <=? matchCount)%nat then bestIndex
        else specScanRows rest (S i) bestIndex bestMatches
  end.

Definition specFindHeaderRow (rows : list (list string)) : nat :=
  specScanRows (firstn (Nat.min (length rows) 10) rows) 0 0 0.

(** A sheet whose title sits in a merged cell above the header row. *)
Definition titled_grid : list (list string) :=
  [ ["Report"; "2024"];
    ["Shipment invoice: billed amount by date"; ""];
    ["AWB"; "Zone"];
    ["X1"; "A"] ]%string.

End CsvNormalizer.

(* ------------------------------------------------------------------ *)
(** ** column-matcher: [similarity], [detectColumns]                    *)
(* ------------------------------------------------------------------ *)

Module ColumnMatcher.

Definition VARIATIONS : list (string * list string) :=
  [ ("AWB",
     [ "awb"; "awb no"; "awb number"; "awbno"; "awbnumber"; "awb_no";
       "airway bill"; "airwaybill"; "tracking number"; "tracking no";
       "tracking_number"; "shipment id"; "consignment number"; "consignment no";
       "waybill"; "way bill"; "docket number"; "docket no" ]);
    ("OrderType",
     [ "order type"; "ordertype"; "order_type"; "type"; "shipment type";
       "cod prepaid"; "cod/prepaid"; "payment type"; "delivery type";
       "service type"; "mode" ]);
    ("BilledWeight",
     [ "billed weight"; "billed wt"; "billed_weight"; "billedweight";
       "charged weight"; "charge weight"; "invoice weight"; "invoiced weight";
       "chargeable weight"; "chargeable wt"; "applicable weight" ]);
    ("ActualWeight",
     [ "actual weight"; "actual wt"; "actual_weight"; "actualweight";
       "real weight"; "dead weight"; "dead wt"; "physical weight";
       "declared weight"; "package weight"; "item weight"; "gross weight" ]);
    ("BilledZone",
     [ "billed zone"; "zone"; "delivery zone"; "shipment zone";
       "charged zone"; "invoice zone"; "billing zone"; "service zone";
       "applicable zone" ]);
    ("ActualZone",
     [ "actual zone"; "actual_zone"; "correct zone"; "calculated zone";
       "expected zone"; "correct_zone" ]);
    ("TotalBilledAmount",
     [ "total billed amount"; "total"; "invoice amount"; "billed amount";
       "amount"; "total amount"; "charged amount"; "invoice total";
       "net amount"; "total charges"; "billing amount"; "freight charges";
       "total freight"; "amount payable"; "grand total" ]);
    ("Length",
     [ "length"; "len"; "pkg length"; "package length";
       "l (cm)"; "length cm"; "length(cm)" ]);
    ("Width",
     [ "width"; "wid"; "pkg width"; "package width";
       "w (cm)"; "width cm"; "width(cm)" ]);
    ("Height",
     [ "height"; "ht"; "pkg height"; "package height";
       "h (cm)"; "height cm"; "height(cm)" ]);
    ("OriginPincode",
     [ "origin pincode"; "origin pin"; "origin_pincode"; "from pincode";
       "source pincode"; "pickup pincode"; "origin pin code"; "sender pincode";
       "source pin"; "from pin"; "origin zip"; "pickup pin" ]);
    ("DestPincode",
     [ "dest pincode"; "destination pincode"; "dest pin"; "destination pin";
       "to pincode"; "delivery pincode"; "dest_pincode"; "consignee pincode";
       "delivery pin"; "to pin"; "dest zip"; "delivery zip" ]);
    ("CODAmount",
     [ "cod amount"; "cod charges"; "cash on delivery"; "cod_amount";
       "cod fee"; "cod value"; "cod charge"; "cod" ]);
    ("ShipmentDate",
     [ "shipment date"; "date"; "booking date"; "ship date"; "dispatch date";
       "created date"; "invoice date"; "order date"; "manifest date" ]) ]%string.

Definition REQUIRED_CANONICAL : list string :=
  [ "AWB"; "OrderType"; "BilledWeight"; "ActualWeight";
    "BilledZone"; "ActualZone"; "TotalBilledAmount" ]%string.

Definition OPTIONAL_CANONICAL : list string :=
  [ "Length"; "Width"; "Height";
    "OriginPincode"; "DestPincode";
    "CODAmount"; "ShipmentDate" ]%string.

Definition ALL_CANONICAL : list string := REQUIRED_CANONICAL ++ OPTIONAL_CANONICAL.

Definition CONFIDENCE_THRESHOLD : num := dec 8 1.

(** *** String utilities *)

Definition is_lower_alnum_or_space (ch : ascii) : bool :=
  let n := nat_of_ascii ch in
  ((97 <=? n)%nat && (n <=? 122)%nat) || is_digit ch || (n =? 32)%nat.

(** [.replace(/[^a-z0-9 ]/g, " ")] *)
Fixpoint blankOthers (s : string) : string :=
  match s with
  | EmptyString => EmptyString
  | String ch rest =>
      String (if is_lower_alnum_or_space ch then ch else " "%char) (blankOthers rest)
  end.

(** [.replace(/\s+/g, " ")]: every run of white space becomes one space.
    [inRun] tells that the character before was white space. *)
Fixpoint collapseFrom (inRun : bool) (s : string) : string :=
  match s with
  | EmptyString => EmptyString
  | String ch rest =>
      if is_space ch
      then if inRun then collapseFrom true rest
           else String " " (collapseFrom true rest)
      else String ch (collapseFrom false rest)
  end.

Definition collapseSpaces (s : string) : string := collapseFrom false s.

Definition normalise (s : string) : string :=
  trim (collapseSpaces (blankOthers (toLowerCase s))).

(** One row of the table of edit distances: [prev] is the row above from
    column [j - 1] on, [left] the entry just computed, [curr[j - 1]]. *)
Fixpoint levRow (ai : ascii) (b : string) (prev : list nat) (left : nat) : list nat :=
  match b, prev with
  | String bj b', diag :: ((up :: _) as prev') =>
      let cj :=
        if Ascii.eqb ai bj then diag
        else (1 + Nat.min (Nat.min up left) diag)%nat in
      cj :: levRow ai b' prev' cj
  | _, _ => []
  end.

(** The outer loop: [i] is the row number of the next character of [a]. *)
Fixpoint levRows (a b : string) (i : nat) (prev : list nat) : list nat :=
  match a with
  | EmptyString => prev
  | String ai a' => levRows a' b (S i) (i :: levRow ai b prev i)
  end.

Definition levenshtein (a b : string) : nat :=
  let n := String.length b in
  nth n (levRows a b 1 (seq 0 (S n))) 0%nat.

(** The distinct members of a list, in the order they first appear: the
    elements of [new Set(l)]. *)
Fixpoint distinct (seen l : list string) : list string :=
  match l with
  | [] => []
  | w :: rest =>
      if inb w seen then distinct seen rest else w :: distinct (w :: seen) rest
  end.

(** [new Set(s.split(" ").filter(Boolean))] *)
Definition wordSet (s : string) : list string :=
  distinct [] (List.filter (fun w => negb (String.eqb w "")) (split " " s)).

Definition similarity (a b : string) : num :=
  let na := normalise a in
  let nb := normalise b in
  if String.eqb na nb then Fin 1
  else if includes na nb || includes nb na then dec 9 1
  else
    let wa := wordSet na in
    let wb := wordSet nb in
    let intersection := length (List.filter (fun w => inb w wb) wa) in
    let union := length (distinct [] (wa ++ wb)) in
    if (0 <? intersection)%nat then
      let jaccard := (of_nat intersection / of_nat union)%num in
      (dec 55 2 + jaccard * dec 35 2)%num
    else
      let dist := levenshtein na nb in
      let maxLen := Nat.max (String.length na) (String.length nb) in
      if (maxLen =? 0)%nat then Fin 1
      else Math_max (Fin 0) (Fin 1 - of_nat dist / of_nat maxLen)%num.

(** *** [detectColumns] *)

Record Candidate : Type := mkCandidate {
  raw : string;
  score : num
}.

Record DetectionResult : Type := mkDetectionResult {
  mapping : gmap string (option string);
  confidences : gmap string num;
  lowConfidenceFields : list string;
  needsManualReview : bool
}.

(** The best score of a raw header against the canonical name and its
    known variations. *)
Definition bestScore (canonical : string) (variations : list string) (raw : string) : num :=
  fold_left (fun best v => let s := similarity raw v in
                           if (s >? best)%num then s else best)
    variations (similarity raw canonical).

(** [candidates[canonical].sort((a, b) => b.score - a.score)]: the sort
    keeps the order of entries that compare equal.  [insertCandidate] puts
    an entry that came first in the array before the first sorted entry
    that does not have to precede it. *)
Fixpoint insertCandidate (c : Candidate) (sorted : list Candidate) : list Candidate :=
  match sorted with
  | [] => [c]
  | d :: rest =>
      if (score d - score c <=? Fin 0)%num
      then c :: sorted
      else d :: insertCandidate c rest
  end.

Definition sortCandidates (l : list Candidate) : list Candidate :=
  fold_right insertCandidate [] l.

(** The candidates of one canonical field: the raw headers scoring at
    least 0.4, best first. *)
Definition candidatesFor (rawHeaders : list string) (canonical : string)
    : list Candidate :=
  let variations := default [] (assoc canonical VARIATIONS) in
  sortCandidates
    (fold_left
       (fun cands raw =>
          let best := bestScore canonical variations raw in
          if (best >=? dec 4 1)%num
          then cands ++ [ {| raw := raw; score := best |} ]
          else cands)
       rawHeaders []).

(** The score matrix built by the first loop. *)
Definition buildCandidates (rawHeaders : list string) : gmap string (list Candidate) :=
  fold_left
    (fun candidates canonical =>
       <[ canonical := candidatesFor rawHeaders canonical ]> candidates)
    ALL_CANONICAL ∅.

(** The state of the greedy assignment. *)
Record Assignment : Type := mkAssignment {
  a_mapping : gmap string (option string);
  a_confidences : gmap string num;
  usedRawHeaders : gset string
}.

(** One turn of the second loop.  Every canonical name has an entry in
    [candidates] (lemma [buildCandidates_defined]). *)
Definition assign (candidates : gmap string (list Candidate))
    (st : Assignment) (canonical : string) : Assignment :=
  let cands := default [] (candidates !! canonical) in
  match List.find (fun c => negb (bool_decide (raw c ∈ usedRawHeaders st))) cands with
  | Some top =>
      {| a_mapping := <[ canonical := Some (raw top) ]> (a_mapping st);
         a_confidences := <[ canonical := score top ]> (a_confidences st);
         usedRawHeaders := usedRawHeaders st ∪ {[ raw top ]} |}
  | None =>
      {| a_mapping := <[ canonical := None ]> (a_mapping st);
         a_confidences := <[ canonical := Fin 0 ]> (a_confidences st);
         usedRawHeaders := usedRawHeaders st |}
  end.

Definition detectColumns (rawHeaders : list string) : DetectionResult :=
  let candidates := buildCandidates rawHeaders in
  let st := fold_left (assign candidates) ALL_CANONICAL (mkAssignment ∅ ∅ ∅) in
  let mapping := a_mapping st in
  let confidences := a_confidences st in
  let lowConfidenceFields :=
    List.filter
      (fun f =>
         (default (Fin 0) (confidences !! f) <? CONFIDENCE_THRESHOLD)%num
         || bool_decide (mapping !! f = Some None))
      REQUIRED_CANONICAL in
  {| mapping := mapping;
     confidences := confidences;
     lowConfidenceFields := lowConfidenceFields;
     needsManualReview := (0 <? length lowConfidenceFields)%nat |}.

(** Every candidate scores at least 0.4. *)
Definition aboveMinimum (c : Candidate) : Prop :=
  (score c >=? dec 4 1)%num = true.

Definition goodCandidates (candidates : gmap string (list Candidate)) : Prop :=
  forall f l, candidates !! f = Some l -> Forall aboveMinimum l.

(** The invariant of the greedy assignment: a header that is mapped is
    marked used, no header is mapped twice, and the confidence of a field
    goes with its mapping. *)
Record assigned (st : Assignment) : Prop := mkAssigned {
  mapped_used :
    forall f h, a_mapping st !! f = Some (Some h) -> h ∈ usedRawHeaders st;
  mapped_once :
    forall f g h, a_mapping st !! f = Some (Some h) ->
                  a_mapping st !! g = Some (Some h) -> f = g;
  mapped_confidence :
    forall f,
      match a_mapping st !! f, a_confidences st !! f with
      | Some (Some _), Some s => (s >=? dec 4 1)%num = true
      | Some None, Some s => s = Fin 0
      | None, None => True
      | _, _ => False
      end
}.

(** Headers of an invoice with two weight columns of the same name. *)
Definition sample_headers : list string :=
  [ "AWB No"; "Weight"; "Weight"; "Zone"; "Amt" ]%string.

End ColumnMatcher.

(* ------------------------------------------------------------------ *)
(** ** The browser's key-value store                                    *)
(* ------------------------------------------------------------------ *)

(** [localStorage] as the persistence helpers see it, for the one key a
    helper works on.  The text under the key is abstracted to what
    [JSON.parse] makes of it; the elements of a stored array are values of
    a type [J] of parsed JSON.  The helpers write arrays only, so the text
    is taken to be absent, unparsable, or an array. *)
Module LocalStorage.

Inductive Item (J : Type) : Type :=
| NoItem                 (* [getItem] gives [null] or the empty string *)
| BadText                (* a text [JSON.parse] throws on *)
| JsonArray (l : list J).
Arguments NoItem {J}.
Arguments BadText {J}.
Arguments JsonArray {J} l.

Record Browser (J : Type) : Type := mkBrowser {
  hasWindow : bool;         (* [typeof window !== "undefined"] *)
  readable : bool;          (* [getItem] does not throw *)
  accepts : list J -> bool; (* [setItem] takes the text of this array *)
  removable : bool;         (* [removeItem] does not throw *)
  item : Item J
}.
Arguments mkBrowser {J}.
Arguments hasWindow {J}.
Arguments readable {J}.
Arguments accepts {J}.
Arguments removable {J}.
Arguments item {J}.

Definition setItem {J : Type} (b : Browser J) (l : list J) : Browser J :=
  mkBrowser (hasWindow b) (readable b) (accepts b) (removable b) (JsonArray l).

Definition removeItem {J : Type} (b : Browser J) : Browser J :=
  mkBrowser (hasWindow b) (readable b) (accepts b) (removable b) NoItem.

(** [l.slice(-n)]: the last [n] elements of [l], all of them when there
    are fewer. *)
Definition sliceLast {A : Type} (n : nat) (l : list A) : list A :=
  skipn (length l - n) l.

(** The body shared by [loadAuditHistory] and [loadWeightData]:
    [[]] without a window, when there is no text, and when reading or
    parsing throws; the parsed array otherwise. *)
Definition loadArray {J : Type} (b : Browser J) : list J :=
  if negb (hasWindow b) then []
  else if negb (readable b) then []
  else match item b with
       | NoItem => []
       | BadText => []
       | JsonArray l => l
       end.

(** The body shared by [clearAuditHistory] and [clearWeightData]. *)
Definition clearItem {J : Type} (b : Browser J) : Browser J :=
  if negb (hasWindow b) then b
  else if removable b then removeItem b else b.

(** A browser in which every operation on the store succeeds. *)
Definition working {J : Type} (b : Browser J) : Prop :=
  hasWindow b = true /\ readable b = true /\ removable b = true /\
  forall l, accepts b l = true.

Definition emptyBrowser (J : Type) : Browser J :=
  mkBrowser true true (fun _ => true) true NoItem.

End LocalStorage.

(* ------------------------------------------------------------------ *)
(** ** audit-history: the record and its persistence                    *)
(* ------------------------------------------------------------------ *)

Module AuditHistory.
Import LocalStorage.

Record AuditRecord : Type := mkAuditRecord {
  id : string;
  timestamp : num;
  providerName : string;
  fileName : string;
  r_totalRows : nat;
  r_totalBilled : num;
  r_totalOvercharge : num;
  flaggedLineItems : nat;
  overchargeByType : OverchargeByType
}.

Definition MAX_RECORDS : nat := 500.

(** What the clock and the random generator give to one call of
    [buildAuditRecord]: the two readings of [Date.now()], in
    milliseconds, and the text [Math.random().toString(36)]. *)
Record Readings : Type := mkReadings {
  now_for_id : Z;
  random_text : string;
  now_for_timestamp : Z
}.

(** The text of an integer in a template literal. *)
Definition integerText (z : Z) : string := NilZero.string_of_int (Z.to_int z).

(** [text.slice(2, 7)] *)
Definition slice_2_7 (text : string) : string := String.substring 2 5 text.

Definition buildAuditRecord (env : Readings) (a : AnalysisResult)
    (providerName fileName : string) : AuditRecord :=
  {| id := (integerText (now_for_id env) ++ "-" ++ slice_2_7 (random_text env))%string;
     timestamp := of_Z (now_for_timestamp env);
     providerName := providerName;
     fileName := fileName;
     r_totalRows := totalRows a;
     r_totalBilled := round2 (totalBilled a);
     r_totalOvercharge := round2 (totalOvercharge a);
     flaggedLineItems := length (discrepancies a);
     overchargeByType := categorizeOvercharge (discrepancies a) |}.

Section Persistence.
(** [J] is the type of a parsed record; [json] is what a record becomes
    once written by [JSON.stringify] and read back by [JSON.parse]. *)
Context {J : Type} (json : AuditRecord -> J).

Definition loadAuditHistory (b : Browser J) : list J := loadArray b.

Definition saveAuditRecord (record : AuditRecord) (b : Browser J) : Browser J :=
  if negb (hasWindow b) then b
  else
    let existing := loadAuditHistory b in
    let existing := existing ++ [json record] in
    let trimmed := sliceLast MAX_RECORDS existing in
    if accepts b trimmed then setItem b trimmed else b.

Definition clearAuditHistory (b : Browser J) : Browser J := clearItem b.

End Persistence.

End AuditHistory.

(* ------------------------------------------------------------------ *)
(** ** weight-regression: sampling, grouping and the stored points      *)
(* ------------------------------------------------------------------ *)

Module WeightData.
Import LocalStorage WeightRegression.

Definition MAX_RECORDS : nat := 10000.
Definition MAX_DISPLAY_POINTS : nat := 300.

(** [Math.floor(i * step)] with [step = points.length / maxN], on exact
    values. *)
Definition sampleIndex (len maxN i : nat) : nat :=
  let step := inject_Z (Z.of_nat len) / inject_Z (Z.of_nat maxN) in
  Z.to_nat (Qfloor (inject_Z (Z.of_nat i) * step)).

(** [sampleForDisplay], for a count [maxN]; an element [None] is the
    [undefined] that reading past the end of [points] would push. *)
Definition sampleForDisplay (points : list WeightDataPoint) (maxN : nat)
    : list (option WeightDataPoint) :=
  if (length points <=? maxN)%nat then map Some points
  else map (fun i => nth_error points (sampleIndex (length points) maxN i))
           (seq 0 maxN).

(** A [Map] from provider names to arrays, its entries in insertion
    order. *)
Definition Groups : Type := list (string * list WeightDataPoint).

(** [map.get(k)] *)
Fixpoint get (k : string) (m : Groups) : option (list WeightDataPoint) :=
  match m with
  | [] => None
  | (k', v) :: rest => if String.eqb k' k then Some v else get k rest
  end.

(** [existing.push(p)] on the array held under [k]. *)
Fixpoint pushTo (k : string) (p : WeightDataPoint) (m : Groups) : Groups :=
  match m with
  | [] => []
  | (k', v) :: rest =>
      if String.eqb k' k then (k', v ++ [p]) :: rest
      else (k', v) :: pushTo k p rest
  end.

(** One turn of the loop; [map.set] on a new key adds a last entry. *)
Definition groupStep (m : Groups) (p : WeightDataPoint) : Groups :=
  match get (provider p) m with
  | Some _ => pushTo (provider p) p m
  | None => m ++ [(provider p, [p])]
  end.

Definition groupByProvider (points : list WeightDataPoint) : Groups :=
  fold_left groupStep points [].

(** The points of one provider, in their order. *)
Definition pointsOf (k : string) (points : list WeightDataPoint)
    : list WeightDataPoint :=
  List.filter (fun p => String.eqb (provider p) k) points.

Section Persistence.
(** [J] is the type of a parsed point; [json] is what a point becomes once
    written by [JSON.stringify] and read back by [JSON.parse]. *)
Context {J : Type} (json : WeightDataPoint -> J).

Definition loadWeightData (b : Browser J) : list J := loadArray b.

Definition storeWeightData (newPoints : list WeightDataPoint) (b : Browser J)
    : Browser J :=
  if negb (hasWindow b) || (length newPoints =? 0)%nat then b
  else
    let existing := loadWeightData b in
    let merged := existing ++ map json newPoints in
    let trimmed := sliceLast MAX_RECORDS merged in
    if accepts b trimmed then setItem b trimmed else b.

Definition clearWeightData (b : Browser J) : Browser J := clearItem b.

End Persistence.

End WeightData.

(* ------------------------------------------------------------------ *)
(** ** csv-normalizer: amounts, pincodes, rows and the mapping          *)
(* ------------------------------------------------------------------ *)

(** A character outside ASCII stands in a string as the bytes of its
    UTF-8 encoding. *)
Module CsvValues.
Import CsvNormalizer.

Definition bytes (l : list nat) : string :=
  string_of_list_ascii (map ascii_of_nat l).

Definition rupee_sign : string := bytes [226; 130; 185]%nat.
Definition euro_sign : string := bytes [226; 130; 172]%nat.
Definition pound_sign : string := bytes [194; 163]%nat.

(** The replacement that deletes every rupee, dollar, euro and pound
    sign, every comma and every white space character.  [skip] counts the
    bytes of a currency sign still to be passed over. *)
Fixpoint stripAmount (skip : nat) (s : string) : string :=
  match s with
  | EmptyString => EmptyString
  | String ch rest =>
      match skip with
      | S k => stripAmount k rest
      | O =>
          if Ascii.eqb ch "$" || Ascii.eqb ch "," || is_space ch
          then stripAmount 0 rest
          else if startsWith rupee_sign s || startsWith euro_sign s
          then stripAmount 2 rest
          else if startsWith pound_sign s then stripAmount 1 rest
          else String ch (stripAmount 0 rest)
      end
  end.

Definition normalizeAmount (raw : JsValue) : num :=
  match raw with
  | JsUndefined | JsNull => Fin 0
  | JsString EmptyString => Fin 0
  | JsNumber n => n
  | JsBoolean _ | JsString _ =>
      let text :=
        match raw with
        | JsString s => s
        | JsBoolean true => "true"
        | _ => "false"
        end%string in
      let cleaned := trim (stripAmount 0 text) in
      let n := parseFloat cleaned in
      if isNaN n then Fin 0 else n
  end.

(** The replacement that deletes every white space character. *)
Fixpoint stripSpaces (s : string) : string :=
  match s with
  | EmptyString => EmptyString
  | String ch rest =>
      if is_space ch then stripSpaces rest else String ch (stripSpaces rest)
  end.

(** The text of a number that is an integer below 10^21 in size, or not
    finite.  The text of any other number has a point or an exponent in
    it and is not spelled out here. *)
Definition numberText (n : num) : option string :=
  match n with
  | NaN => Some "NaN"
  | PInf => Some "Infinity"
  | NInf => Some "-Infinity"
  | Fin q =>
      if Pos.eqb (Qden (Qred q)) 1 && Qle_bool (Qabs q) (inject_Z (10 ^ 21 - 1))
      then Some (NilZero.string_of_int (Z.to_int (Qnum (Qred q))))
      else None
  end%string.

(** [/^\d{6}$/.test(str)] *)
Definition sixDigits (str : string) : bool :=
  (String.length str =? 6)%nat && allDigits str.

(** [normalizePincode]: [None] is [null].  A number whose text is not
    spelled out has a point or an exponent in it, so it fails the test. *)
Definition normalizePincode (raw : JsValue) : option string :=
  match raw with
  | JsUndefined | JsNull => None
  | _ =>
      let text :=
        match raw with
        | JsString s => Some s
        | JsBoolean true => Some "true"
        | JsBoolean false => Some "false"
        | JsNumber n => numberText n
        | _ => None
        end%string in
      match text with
      | Some text =>
          let str := stripSpaces text in
          if sixDigits str then Some str else None
      | None => None
      end
  end.

(** What a field of a row holds: a value of the parsed file, or a member
    inherited from [Object.prototype] that a read brought in. *)
Inductive Cell : Type :=
| Value (v : JsValue)
| Member (name : string).

(** A row object: its own properties. *)
Abbreviation Row := (gmap string Cell).

(** [row[key]] and [key in row]: own properties first, then the members
    of [Object.prototype]. *)
Definition readCell (row : Row) (key : string) : Cell :=
  match row !! key with
  | Some cell => cell
  | None => if inb key Object_prototype_names then Member key
            else Value JsUndefined
  end.

Definition hasKey (row : Row) (key : string) : bool :=
  match row !! key with
  | Some _ => true
  | None => inb key Object_prototype_names
  end.

(** [String(x)] for an inherited member: the source text of a built-in
    function, or the text [[object Object]] for the prototype itself. *)
Definition memberText (name : string) : string :=
  if String.eqb name "__proto__" then "[object Object]"
  else ("function " ++ name ++ "() { [native code] }")%string.

(** The normalizers on a cell: an inherited member goes through
    [String(raw)] like any value that is neither a number nor empty. *)
Definition cellValue (cell : Cell) : JsValue :=
  match cell with
  | Value v => v
  | Member name => JsString (memberText name)
  end.

(** One turn of [rows.map] in [normalizeRows].  None of the names tested
    with [in] is a member of [Object.prototype]. *)
Definition setNumber (normalizer : JsValue -> num) (key : string) (out : Row) : Row :=
  if hasKey out key
  then <[ key := Value (JsNumber (normalizer (cellValue (readCell out key)))) ]> out
  else out.

Definition setPincode (key : string) (out : Row) : Row :=
  if hasKey out key
  then match normalizePincode (cellValue (readCell out key)) with
       | Some p => <[ key := Value (JsString p) ]> out
       | None => delete key out
       end
  else out.

Definition normalizeRow (row : Row) : Row :=
  let out := row in
  let out := setNumber normalizeWeight "BilledWeight" out in
  let out := setNumber normalizeWeight "ActualWeight" out in
  let out := setNumber normalizeAmount "TotalBilledAmount" out in
  let out := setNumber normalizeAmount "CODAmount" out in
  let out := setNumber normalizeWeight "Length" out in
  let out := setNumber normalizeWeight "Width" out in
  let out := setNumber normalizeWeight "Height" out in
  let out := setPincode "OriginPincode" out in
  let out := setPincode "DestPincode" out in
  out.

Definition normalizeRows (rows : list Row) : list Row := map normalizeRow rows.

(** [x != null] *)
Definition notNull (cell : Cell) : bool :=
  match cell with
  | Value JsUndefined | Value JsNull => false
  | _ => true
  end.

(** One turn of [rows.map] in [applyMapping]: [out[canonical] =
    row[rawKey]] for every entry whose raw key is a non-empty string
    found in the row.  An assignment to [out["__proto__"]] creates no
    property. *)
Definition remapRow (mapping : gmap string (option string)) (row : Row) : Row :=
  map_imap
    (fun canonical rawKey =>
       match rawKey with
       | Some rawKey =>
           if negb (String.eqb rawKey "") && hasKey row rawKey
              && negb (String.eqb canonical "__proto__")
           then Some (readCell row rawKey)
           else None
       | None => None
       end)
    mapping.

Definition applyMapping (rows : list Row) (mapping : gmap string (option string))
    : list Row :=
  List.filter
    (fun row => notNull (readCell row "AWB")
                && notNull (readCell row "TotalBilledAmount"))
    (map (remapRow mapping) rows).

(** The keys [normalizeRow] turns into numbers, and into pincodes. *)
Definition numberKeys : list string :=
  [ "BilledWeight"; "ActualWeight"; "TotalBilledAmount"; "CODAmount";
    "Length"; "Width"; "Height" ]%string.

Definition pincodeKeys : list string := [ "OriginPincode"; "DestPincode" ]%string.

(** What [normalizeRow] does to one field, as a function of the field's
    name and of what the row holds under it. *)
Definition numberCell (normalizer : JsValue -> num) (cell : Cell) : Cell :=
  Value (JsNumber (normalizer (cellValue cell))).

Definition pincodeCell (cell : Cell) : option Cell :=
  match normalizePincode (cellValue cell) with
  | Some p => Some (Value (JsString p))
  | None => None
  end.

Definition normalizedCell (key : string) (held : option Cell) : option Cell :=
  if inb key ["BilledWeight"; "ActualWeight"; "Length"; "Width"; "Height"]%string
  then numberCell normalizeWeight <$> held
  else if inb key ["TotalBilledAmount"; "CODAmount"]%string
  then numberCell normalizeAmount <$> held
  else if inb key pincodeKeys
  then held ≫= pincodeCell
  else held.

(** A raw row and a mapping, as a file with the headers "AWB No",
    "Amt" and "Pin" gives them. *)
Definition sample_raw_row : Row :=
  <[ "AWB No"%string := Value (JsString "X1") ]>
    (<[ "Amt"%string := Value (JsString "1,234.56") ]>
       (<[ "Pin"%string := Value (JsString "110 001") ]> ∅)).

Definition sample_mapping : gmap string (option string) :=
  <[ "AWB"%string := Some "AWB No"%string ]>
    (<[ "TotalBilledAmount"%string := Some "Amt"%string ]>
       (<[ "OriginPincode"%string := Some "Pin"%string ]>
          (<[ "BilledWeight"%string := None ]> ∅))).

End CsvValues.

(* ------------------------------------------------------------------ *)
(** ** column-matcher: the range of the scores                          *)
(* ------------------------------------------------------------------ *)

Module ColumnScores.
Import ColumnMatcher.

(** A finite score between 0 and 1. *)
Definition unitScore (s : num) : Prop :=
  exists q, s = Fin q /\ 0 <= q <= 1.

(** What [detectColumns] holds for a field: the header, if any, and the
    confidence. *)
Definition mappedTo (r : DetectionResult) (f : string) : string :=
  default EmptyString (default None (mapping r !! f)).

(** The headers of a file that names every required column. *)
Definition complete_headers : list string :=
  [ "AWB"; "Order Type"; "Billed Weight"; "Actual Weight";
    "Billed Zone"; "Actual Zone"; "Total Billed Amount" ]%string.

End ColumnScores.

(* ------------------------------------------------------------------ *)
(** ** The same functions on binary64 numbers                           *)
(* ------------------------------------------------------------------ *)

(** The sections above compute on exact values.  This module embeds
    [analyzeInvoice], [categorizeOvercharge] and [runRegression] a second
    time, on the numbers JavaScript has: a [number] is a binary64 float,
    every operation rounds to the nearest float, ties to even, and
    overflows to an infinity.  The strings, the labels and the control
    flow are those of the sections above. *)
Module Double.
Import SpecFloat FloatOps.

Definition number : Type := PrimFloat.float.

(** The float nearest to [n / d]: the value of a decimal literal, and of
    [Number(text)] for the text of a decimal. *)
Definition ratio (n : Z) (d : positive) : number :=
  match n with
  | Z0 => PrimFloat.zero
  | Zpos p => SF2Prim (SFdiv prec emax (S754_finite false p 0) (S754_finite false d 0))
  | Zneg p => SF2Prim (SFdiv prec emax (S754_finite true p 0) (S754_finite false d 0))
  end.

Definition of_Z (z : Z) : number := ratio z 1.
Definition of_nat (n : nat) : number := of_Z (Z.of_nat n).

(** Decimal literals: [dec n k] is the float nearest to [n / 10^k]. *)
Definition dec (n : Z) (k : nat) : number := ratio n (Z.to_pos (10 ^ Z.of_nat k)).

Definition NaN : number := PrimFloat.nan.

Declare Scope double_scope.
Delimit Scope double_scope with double.
Notation "a + b" := (PrimFloat.add a b) : double_scope.
Notation "a - b" := (PrimFloat.sub a b) : double_scope.
Notation "a * b" := (PrimFloat.mul a b) : double_scope.
Notation "a / b" := (PrimFloat.div a b) : double_scope.
Notation "a <=? b" := (PrimFloat.leb a b) : double_scope.
Notation "a <? b" := (PrimFloat.ltb a b) : double_scope.
Notation "a >? b" := (PrimFloat.ltb b a) : double_scope.
Notation "a =? b" := (PrimFloat.eqb a b) : double_scope.

(** The exact value of a finite float with mantissa [m] and exponent [e]. *)
Definition magnitude (m : positive) (e : Z) : Q := inject_Z (Zpos m) * 2 ^ e.

(** [Math.round(x)]: the integer nearest to the exact value of [x],
    halves going up; a result of 0 keeps the sign of [x]. *)
Definition Math_round (x : number) : number :=
  match Prim2SF x with
  | S754_finite s m e =>
      let q := if s then - magnitude m e else magnitude m e in
      let z := Qfloor (q + (1 # 2)) in
      if (z =? 0)%Z then (if s then PrimFloat.neg_zero else PrimFloat.zero)
      else of_Z z
  | _ => x
  end.

(** [Number(x.toFixed(2))].  [toFixed] takes the sign off, prints the
    integer [n] for which [n / 100] is nearest to the exact value of [x],
    the larger one on a tie, and from 10^21 on prints the number itself;
    [Number] reads the decimal back as the nearest float. *)
Definition toFixed2 (x : number) : number :=
  match Prim2SF x with
  | S754_finite s m e =>
      let a := magnitude m e in
      if Qle_bool (inject_Z (10 ^ 21)) a then x
      else
        let n := Qfloor (a * 100 + (1 # 2)) in
        if s then PrimFloat.opp (ratio n 100) else ratio n 100
  | S754_zero _ => PrimFloat.zero
  | _ => x
  end.

(** [Math.round(x * 100) / 100] *)
Definition round2 (x : number) : number := (Math_round (x * of_Z 100) / of_Z 100)%double.

(** *** billing-engine *)

Record CsvRow : Type := mkCsvRow {
  AWB : string;
  OrderType : string;
  BilledWeight : number;
  ActualWeight : number;
  BilledZone : string;
  ActualZone : string;
  TotalBilledAmount : number
}.

Record ContractRules : Type := mkContractRules {
  zone_a_rate : number;
  zone_b_rate : number;
  zone_c_rate : number;
  cod_fee_percentage : number;
  rto_flat_fee : number
}.

Record Discrepancy : Type := mkDiscrepancy {
  awb_number : string;
  issue_type : string;
  billed_amount : number;
  correct_amount : number;
  difference : number
}.

Record AnalysisResult : Type := mkAnalysisResult {
  discrepancies : list Discrepancy;
  totalOvercharge : number;
  totalRows : nat;
  totalBilled : number
}.

Definition contract_read (c : ContractRules) (key : string) : option number :=
  if String.eqb key "zone_a_rate" then Some (zone_a_rate c)
  else if String.eqb key "zone_b_rate" then Some (zone_b_rate c)
  else if String.eqb key "zone_c_rate" then Some (zone_c_rate c)
  else if String.eqb key "cod_fee_percentage" then Some (cod_fee_percentage c)
  else if String.eqb key "rto_flat_fee" then Some (rto_flat_fee c)
  else None.

(** [ToNumber] of a value that is a number or [undefined]. *)
Definition ToNumber (v : option number) : number :=
  match v with Some n => n | None => NaN end.

(** [const rateKey = ZONE_RATE_MAP[actualZone]
     const baseRate = rateKey ? contractRules[rateKey] : 0], read as in
    the section on the engine above. *)
Definition baseRate (c : ContractRules) (row : CsvRow) : option number :=
  match read_literal ZONE_RATE_MAP (ActualZone row) with
  | Own rateKey => contract_read c rateKey
  | Inherited _ => None
  | Undefined => Some (of_Z 0)
  end.

Definition expectedFreight (c : ContractRules) (row : CsvRow) : number :=
  (ToNumber (baseRate c row) * BilledWeight row)%double.

Definition expectedTotal (c : ContractRules) (row : CsvRow) : number :=
  let expectedFreight := expectedFreight c row in
  if String.eqb (OrderType row) "COD"
  then (expectedFreight + (expectedFreight * cod_fee_percentage c) / of_Z 100)%double
  else expectedFreight.

Definition rowDifference (c : ContractRules) (row : CsvRow) : number :=
  (TotalBilledAmount row - expectedTotal c row)%double.

Definition reasons (c : ContractRules) (row : CsvRow) : list string :=
  let reasons := [] in
  let reasons :=
    if negb (String.eqb (BilledZone row) (ActualZone row))
    then reasons ++ ["Zone Mismatch"%string] else reasons in
  let reasons :=
    if (BilledWeight row >? ActualWeight row)%double
    then reasons ++ ["Weight Overcharge"%string] else reasons in
  let reasons :=
    if String.eqb (OrderType row) "Prepaid"
       && (TotalBilledAmount row >? expectedFreight c row + of_Z 1)%double
    then reasons ++ ["Invalid COD Charge"%string] else reasons in
  if Nat.eqb (length reasons) 0
  then reasons ++ ["Rate Overcharge"%string] else reasons.

Definition auditRow (c : ContractRules)
    (st : list Discrepancy * number) (row : CsvRow) : list Discrepancy * number :=
  let '(discrepancies, totalBilled) := st in
  let totalBilled := (totalBilled + TotalBilledAmount row)%double in
  let difference := rowDifference c row in
  if (difference <=? of_Z 1)%double then (discrepancies, totalBilled)
  else
    (discrepancies ++
       [ {| awb_number := AWB row;
            issue_type := join ", " (reasons c row);
            billed_amount := TotalBilledAmount row;
            correct_amount := toFixed2 (expectedTotal c row);
            difference := toFixed2 difference |} ],
     totalBilled).

Definition sumDifferences (ds : list Discrepancy) : number :=
  fold_left (fun sum d => (sum + difference d)%double) ds (of_Z 0).

Definition analyzeInvoice (csvData : list CsvRow) (contractRules : ContractRules)
    : AnalysisResult :=
  let '(discrepancies, totalBilled) :=
    fold_left (auditRow contractRules) csvData ([], of_Z 0) in
  let totalOvercharge := sumDifferences discrepancies in
  {| discrepancies := discrepancies;
     totalOvercharge := toFixed2 totalOvercharge;
     totalRows := length csvData;
     totalBilled := toFixed2 totalBilled |}.

(** The contract of the scenarios: 40, 55 and 75 a kilogram, COD 1.5%. *)
Definition scenario_contract : ContractRules :=
  {| zone_a_rate := of_Z 40; zone_b_rate := of_Z 55; zone_c_rate := of_Z 75;
     cod_fee_percentage := dec 15 1; rto_flat_fee := of_Z 0 |}.

(** A Prepaid shipment in zone A of [weight] kilograms billed [amount]. *)
Definition prepaid_row (weight amount : number) (zone : string) : CsvRow :=
  {| AWB := "X1"; OrderType := "Prepaid";
     BilledWeight := weight; ActualWeight := weight;
     BilledZone := "A"; ActualZone := zone;
     TotalBilledAmount := amount |}.

(** *** audit-history *)

Record OverchargeByType : Type := mkOverchargeByType {
  weightMismatch : number;
  zoneMismatch : number;
  duplicateAWB : number;
  incorrectCOD : number;
  rtoMismatch : number;
  other : number
}.

Definition issueTypes (d : Discrepancy) : list string :=
  map trim (split ", " (issue_type d)).

Definition share (d : Discrepancy) : number :=
  let n := length (issueTypes d) in
  (difference d / of_nat (if Nat.eqb n 0 then 1 else n))%double.

Definition addShare (share : number) (result : OverchargeByType) (type : string)
    : OverchargeByType :=
  let lower := toLowerCase type in
  let '(mkOverchargeByType w z dup cod rto oth) := result in
  (if includes lower "weight" then mkOverchargeByType (w + share) z dup cod rto oth
   else if includes lower "zone" then mkOverchargeByType w (z + share) dup cod rto oth
   else if includes lower "duplicate" then mkOverchargeByType w z (dup + share) cod rto oth
   else if includes lower "cod" then mkOverchargeByType w z dup (cod + share) rto oth
   else if includes lower "rto" then mkOverchargeByType w z dup cod (rto + share) oth
   else mkOverchargeByType w z dup cod rto (oth + share))%double.

Definition addDiscrepancy (result : OverchargeByType) (d : Discrepancy)
    : OverchargeByType :=
  fold_left (addShare (share d)) (issueTypes d) result.

Definition accumulateOvercharge (discrepancies : list Discrepancy)
    : OverchargeByType :=
  fold_left addDiscrepancy discrepancies
    (mkOverchargeByType (of_Z 0) (of_Z 0) (of_Z 0) (of_Z 0) (of_Z 0) (of_Z 0)).

Definition categorizeOvercharge (discrepancies : list Discrepancy)
    : OverchargeByType :=
  let '(mkOverchargeByType w z dup cod rto oth) :=
    accumulateOvercharge discrepancies in
  mkOverchargeByType (round2 w) (round2 z) (round2 dup) (round2 cod)
    (round2 rto) (round2 oth).

Definition bucketValue (b : Bucket) (o : OverchargeByType) : number :=
  match b with
  | BWeight => weightMismatch o
  | BZone => zoneMismatch o
  | BDuplicate => duplicateAWB o
  | BCod => incorrectCOD o
  | BRto => rtoMismatch o
  | BOther => other o
  end.

(** The sum of the six buckets. *)
Definition bucketSum (o : OverchargeByType) : number :=
  (weightMismatch o + zoneMismatch o + duplicateAWB o + incorrectCOD o
   + rtoMismatch o + other o)%double.


(** The issue labels the comments of [OverchargeByType] name, with their
    texts and the buckets the comments file them under. *)
Inductive Label : Type :=
| WeightOvercharge | WeightDiscrepancy | ZoneMismatch | DuplicateCharge
| InvalidCODCharge | RTOOvercharge | NonContractedSurcharge | RateOvercharge.

Definition labelText (l : Label) : string :=
  match l with
  | WeightOvercharge => "Weight Overcharge"
  | WeightDiscrepancy => "Weight Discrepancy"
  | ZoneMismatch => "Zone Mismatch"
  | DuplicateCharge => "Duplicate Charge"
  | InvalidCODCharge => "Invalid COD Charge"
  | RTOOvercharge => "RTO Overcharge"
  | NonContractedSurcharge => "Non-contracted Surcharge"
  | RateOvercharge => "Rate Overcharge"
  end.


(** A discrepancy given by its labels, one at least, and its amounts. *)
Record Labelled : Type := mkLabelled {
  l_awb : string;
  l_first : Label;
  l_more : list Label;
  l_billed : number;
  l_correct : number;
  l_difference : number
}.

Definition labelsOf (e : Labelled) : list Label := l_first e :: l_more e.

Definition discrepancyOf (e : Labelled) : Discrepancy :=
  {| awb_number := l_awb e;
     issue_type := join ", " (map labelText (labelsOf e));
     billed_amount := l_billed e;
     correct_amount := l_correct e;
     difference := l_difference e |}.


Definition total (shares : list number) : number :=
  fold_left (fun acc s => (acc + s)%double) shares (of_Z 0).

(** *** weight-regression *)

Record WeightDataPoint : Type := mkWeightDataPoint {
  provider : string;
  awb : string;
  declaredWeight_g : number;
  billedWeight_g : number;
  date : number
}.

Record RegressionResult : Type := mkRegressionResult {
  result_provider : string;
  pointCount : nat;
  slope : number;
  intercept : number;
  r2 : number;
  avgOverchargePct : number
}.

Definition MIN_POINTS_FOR_REGRESSION : nat := 30.

Record Sums : Type := mkSums {
  sumX : number;
  sumY : number;
  sumXY : number;
  sumX2 : number;
  sumOverchargePct : number
}.

Definition addPoint (s : Sums) (p : WeightDataPoint) : Sums :=
  let x := declaredWeight_g p in
  let y := billedWeight_g p in
  {| sumX := sumX s + x;
     sumY := sumY s + y;
     sumXY := sumXY s + x * y;
     sumX2 := sumX2 s + x * x;
     sumOverchargePct :=
       if (declaredWeight_g p >? of_Z 0)%double
       then sumOverchargePct s
            + (billedWeight_g p - declaredWeight_g p) / declaredWeight_g p
       else sumOverchargePct s |}%double.

Definition sums (points : list WeightDataPoint) : Sums :=
  fold_left addPoint points (mkSums (of_Z 0) (of_Z 0) (of_Z 0) (of_Z 0) (of_Z 0)).

(** [const denom = n * sumX2 - sumX * sumX] *)
Definition denom (points : list WeightDataPoint) : number :=
  let n := of_nat (length points) in
  let s := sums points in
  (n * sumX2 s - sumX s * sumX s)%double.

(** The second loop; [v ** 2] is taken as [v * v]. *)
Definition addSquares (m b meanY : number) (acc : number * number)
    (p : WeightDataPoint) : number * number :=
  let '(ssTot, ssRes) := acc in
  let y := billedWeight_g p in
  let yHat := (m * declaredWeight_g p + b)%double in
  ((ssTot + (y - meanY) * (y - meanY))%double,
   (ssRes + (y - yHat) * (y - yHat))%double).

Definition runRegression (points : list WeightDataPoint)
    : completion (option RegressionResult) :=
  let n := length points in
  if (n <? MIN_POINTS_FOR_REGRESSION)%nat then Return None
  else
    let s := sums points in
    let n' := of_nat n in
    let denom := denom points in
    if (denom =? of_Z 0)%double then Return None
    else
      let m := ((n' * sumXY s - sumX s * sumY s) / denom)%double in
      let b := ((sumY s - m * sumX s) / n')%double in
      let meanY := (sumY s / n')%double in
      let '(ssTot, ssRes) :=
        fold_left (addSquares m b meanY) points (of_Z 0, of_Z 0) in
      let r2 := if (ssTot =? of_Z 0)%double then of_Z 1
                else (of_Z 1 - ssRes / ssTot)%double in
      match points with
      | [] => Throw "TypeError: Cannot read properties of undefined (reading 'provider')"
      | p0 :: _ =>
          Return (Some
            {| result_provider := provider p0;
               pointCount := n;
               slope := (Math_round (m * of_Z 10000) / of_Z 10000)%double;
               intercept := (Math_round (b * of_Z 100) / of_Z 100)%double;
               r2 := (Math_round (r2 * of_Z 10000) / of_Z 10000)%double;
               avgOverchargePct :=
                 (Math_round ((sumOverchargePct s / n') * of_Z 10000)
                  / of_Z 100)%double |})
      end.

Definition point (x y : number) : WeightDataPoint :=
  {| provider := "Delhivery"; awb := "AWB"; declaredWeight_g := x;
     billedWeight_g := y; date := of_Z 0 |}.

(** *** Sample inputs *)


(** 0.03 kg in zone A billed 2.2: 1.00 above 40 * 0.03 = 1.2. *)
Definition thin_margin_row : CsvRow := prepaid_row (dec 3 2) (dec 22 1) "A".

(** 1 kg whose actual zone is named as a member every object inherits. *)
Definition inherited_zone_row : CsvRow := prepaid_row (of_Z 1) (of_Z 45) "constructor".


(** 1 kg billed in zone A, carried in zone B at 55, billed 57.01: two
    labels and a difference of 2.01. *)
Definition two_label_row : CsvRow := prepaid_row (of_Z 1) (dec 5701 2) "B".

(** Thirty points with the same declared weight, 0.1, billed 0.11. *)
Definition identical_weights : list WeightDataPoint :=
  repeat (point (dec 1 1) (dec 11 2)) 30.

(** Thirty points with declared weights [1e200 * i], billed [i]. *)
Definition large_weights : list WeightDataPoint :=
  map (fun i => point (of_Z (10 ^ 200) * of_nat i)%double (of_nat i)) (seq 1 30).


End Double.

(* ================================================================== *)
(** * Properties                                                        *)
(* ================================================================== *)

(** ** Numbers *)

Lemma ltb_not_leb (a b : num) : (a <? b)%num = true -> (b <=? a)%num = false.
Proof.
  destruct a, b; simpl; try discriminate; try reflexivity.
  intros H. apply negb_true_iff in H. exact H.
Qed.

(** ** billing-engine *)

Lemma auditRow_fold_fst (c : ContractRules) (rows : list CsvRow) :
  forall ds tb tb0,
    fst (fold_left (auditRow c) rows (ds, tb)) =
    (ds ++ fst (fold_left (auditRow c) rows ([], tb0)))%list.
Proof.
  induction rows as [| row rows IH]; intros ds tb tb0; simpl.
  - now rewrite app_nil_r.
  - destruct (rowDifference c row <=? Fin 1)%num.
    + apply IH.
    + rewrite (IH (ds ++ _)%list _ tb0).
      rewrite (IH [_] _ tb0). simpl. now rewrite <- app_assoc.
Qed.

Lemma analyzeInvoice_discrepancies (c : ContractRules) (rows : list CsvRow) :
  discrepancies (analyzeInvoice rows c) = flagged c rows.
Proof.
  unfold analyzeInvoice, flagged.
  destruct (fold_left (auditRow c) rows ([], Fin 0)); reflexivity.
Qed.

Lemma flagged_app (c : ContractRules) (pre post : list CsvRow) :
  flagged c (pre ++ post) = (flagged c pre ++ flagged c post)%list.
Proof.
  unfold flagged. rewrite fold_left_app.
  destruct (fold_left (auditRow c) pre ([], Fin 0)) as [ds tb] eqn:E.
  simpl. apply auditRow_fold_fst.
Qed.

Lemma flagged_cons (c : ContractRules) (row : CsvRow) (rows : list CsvRow) :
  flagged c (row :: rows) = (flagged c [row] ++ flagged c rows)%list.
Proof. apply (flagged_app c [row] rows). Qed.

(** C1, as the code has it: on the scenario the engine computes
    expectedFreight = 40, expectedTotal = 40 and difference = 5 and emits
    exactly one Discrepancy, with correct_amount = 40 and difference = 5;
    the billed amount exceeds expectedFreight + 1 on a Prepaid row, so the
    COD check fires and the label is "Invalid COD Charge". *)
Theorem scenario_invalid_cod_charge :
  expectedFreight scenario_contract scenario_row = Fin 40 /\
  expectedTotal scenario_contract scenario_row = Fin 40 /\
  rowDifference scenario_contract scenario_row = Fin 5 /\
  reasons scenario_contract scenario_row = ["Invalid COD Charge"%string] /\
  discrepancies (analyzeInvoice [scenario_row] scenario_contract) =
    [ {| awb_number := "X1"; issue_type := "Invalid COD Charge";
         billed_amount := Fin 45; correct_amount := Fin 40;
         difference := Fin 5 |} ].
Proof. repeat split; vm_compute; reflexivity. Qed.

(** C1, as stated, fails: the one Discrepancy of the scenario does not carry
    the label "Rate Overcharge". *)
Lemma scenario_not_rate_overcharge :
  ~ (exists d,
        discrepancies (analyzeInvoice [scenario_row] scenario_contract) = [d] /\
        issue_type d = "Rate Overcharge"%string /\
        correct_amount d = Fin 40 /\ difference d = Fin 5).
Proof.
  intros (d & Hd & Hlabel & _).
  vm_compute in Hd. injection Hd as <-. discriminate Hlabel.
Qed.

(** The second scenario of the specification: a COD row billed in zone B
    for zone A; the rate is that of the actual zone, the COD fee makes the
    expected total 40.6 and the difference 9.4, labelled "Zone Mismatch". *)
Example scenario_zone_mismatch :
  analyzeInvoice
    [ {| AWB := "X2"; OrderType := "COD";
         BilledWeight := Fin 1; ActualWeight := Fin 1;
         BilledZone := "B"; ActualZone := "A";
         TotalBilledAmount := Fin 50 |} ] scenario_contract =
  {| discrepancies :=
       [ {| awb_number := "X2"; issue_type := "Zone Mismatch";
            billed_amount := Fin 50; correct_amount := dec 406 1;
            difference := dec 94 1 |} ];
     totalOvercharge := dec 94 1; totalRows := 1; totalBilled := Fin 50 |}.
Proof. vm_compute. reflexivity. Qed.

(** The engine never reads the RTO fee of the contract, which the scenario
    leaves out. *)
Lemma baseRate_rto_irrelevant (row : CsvRow) (a b c cod rto rto' : num) :
  baseRate (mkContractRules a b c cod rto) row =
  baseRate (mkContractRules a b c cod rto') row.
Proof.
  unfold baseRate, read_literal, ZONE_RATE_MAP. simpl.
  repeat (destruct (String.eqb (ActualZone row) _); [reflexivity |]).
  reflexivity.
Qed.

Lemma auditRow_rto_irrelevant st (row : CsvRow) (a b c cod rto rto' : num) :
  auditRow (mkContractRules a b c cod rto) st row =
  auditRow (mkContractRules a b c cod rto') st row.
Proof.
  unfold auditRow, reasons, rowDifference, expectedTotal, expectedFreight.
  rewrite (baseRate_rto_irrelevant row a b c cod rto rto'). reflexivity.
Qed.

(** The flat RTO fee of the contract plays no part in an audit: two
    contracts that differ in it alone give the same result on any rows. *)
Lemma analyzeInvoice_rto_irrelevant (rows : list CsvRow) (a b c cod rto rto' : num) :
  analyzeInvoice rows (mkContractRules a b c cod rto) =
  analyzeInvoice rows (mkContractRules a b c cod rto').
Proof.
  unfold analyzeInvoice.
  assert (E : forall st,
             fold_left (auditRow (mkContractRules a b c cod rto)) rows st =
             fold_left (auditRow (mkContractRules a b c cod rto')) rows st).
  { induction rows as [| row rows IH]; intros st; simpl; [reflexivity |].
    rewrite IH. f_equal. apply auditRow_rto_irrelevant. }
  now rewrite E.
Qed.

(** *** Zones outside the rate map *)

Lemma fin_zero_l (w : Q) : fin (0 * w) = Fin 0.
Proof.
  unfold fin. rewrite (Qred_complete (0 * w) 0) by ring. reflexivity.
Qed.

Lemma fin_plus_zero : fin (0 + 0) = Fin 0.
Proof. reflexivity. Qed.

Lemma fin_minus_zero (t : Q) : fin (t - 0) = fin t.
Proof. unfold fin. now rewrite (Qred_complete (t - 0) t) by ring. Qed.

Lemma read_zone_unknown (zone : string) :
  zone <> "A"%string -> zone <> "B"%string -> zone <> "C"%string ->
  inb zone Object_prototype_names = false ->
  read_literal ZONE_RATE_MAP zone = @Undefined string.
Proof.
  intros HA HB HC Hproto. unfold read_literal. rewrite Hproto.
  unfold ZONE_RATE_MAP, assoc.
  apply String.eqb_neq in HA, HB, HC. rewrite HA, HB, HC. reflexivity.
Qed.

(** What the code does for a zone it has no rate for, when the zone names
    no member of [Object.prototype] and the weight and the COD percentage
    are finite: base rate 0, expected total 0 (COD or not), and a row
    billed more than 1 is flagged for its full billed amount. *)
Lemma unknown_zone_full_amount (c : ContractRules) (row : CsvRow) (w p t : Q) :
  ActualZone row <> "A"%string -> ActualZone row <> "B"%string ->
  ActualZone row <> "C"%string ->
  inb (ActualZone row) Object_prototype_names = false ->
  BilledWeight row = Fin w -> cod_fee_percentage c = Fin p ->
  TotalBilledAmount row = Fin t -> 1 < t ->
  baseRate c row = Some (Fin 0) /\
  expectedTotal c row = Fin 0 /\
  exists d, discrepancies (analyzeInvoice [row] c) = [d] /\
            correct_amount d = Fin 0 /\
            difference d = toFixed2 (fin t).
Proof.
  intros HA HB HC Hproto Hw Hp Ht Hlt.
  assert (Hbase : baseRate c row = Some (Fin 0)).
  { unfold baseRate. now rewrite read_zone_unknown. }
  assert (Hfreight : expectedFreight c row = Fin 0).
  { unfold expectedFreight. rewrite Hbase, Hw. apply fin_zero_l. }
  assert (Htotal : expectedTotal c row = Fin 0).
  { unfold expectedTotal. rewrite Hfreight, Hp.
    destruct (String.eqb (OrderType row) "COD"); [| reflexivity].
    change (Fin 0 * Fin p)%num with (fin (0 * p)). rewrite fin_zero_l.
    reflexivity. }
  assert (Hdiff : rowDifference c row = fin t).
  { unfold rowDifference. rewrite Htotal, Ht. apply fin_minus_zero. }
  repeat split; try assumption.
  rewrite analyzeInvoice_discrepancies. unfold flagged. simpl.
  rewrite Hdiff, Htotal.
  assert (Hle : (fin t <=? Fin 1)%num = false).
  { simpl. destruct (Qle_bool (Qred t) 1) eqn:E; [| reflexivity].
    apply Qle_bool_iff in E. rewrite Qred_correct in E. exfalso. lra. }
  rewrite Hle. simpl. eexists. repeat split.
Qed.

(** C9 at a zone that names an inherited member of the rate map: the read
    [ZONE_RATE_MAP["constructor"]] finds [Object.prototype.constructor],
    the base rate is [undefined] instead of 0, the expected total is NaN,
    and the row is flagged with a NaN difference instead of its billed
    amount. *)
Theorem inherited_zone_is_not_rate_zero :
  read_literal ZONE_RATE_MAP "constructor" = Inherited "constructor" /\
  baseRate scenario_contract inherited_zone_row = None /\
  expectedTotal scenario_contract inherited_zone_row = NaN /\
  analyzeInvoice [inherited_zone_row] scenario_contract =
    {| discrepancies :=
         [ {| awb_number := "X1"; issue_type := "Zone Mismatch";
              billed_amount := Fin 45; correct_amount := NaN;
              difference := NaN |} ];
       totalOvercharge := NaN; totalRows := 1; totalBilled := Fin 45 |}.
Proof. repeat split; vm_compute; reflexivity. Qed.

(** ** audit-history *)

(** A dual-labelled discrepancy of 10 contributes 5 to each bucket. *)
Example dual_label_of_ten :
  categorizeOvercharge
    [ {| awb_number := "X"; issue_type := "Zone Mismatch, Weight Overcharge";
         billed_amount := Fin 50; correct_amount := Fin 40;
         difference := Fin 10 |} ] =
  mkOverchargeByType (Fin 5) (Fin 5) (Fin 0) (Fin 0) (Fin 0) (Fin 0).
Proof. vm_compute. reflexivity. Qed.

(** ** weight-regression *)

Module RegressionFacts.
Import WeightRegression.

(** *** Runs on whole numbers of grams *)

(** Fewer than 30 points, or 30 points of 100 g: no result. *)
Example twenty_nine_points :
  runRegression (repeat (point 100 110) 29) = Return None.
Proof. reflexivity. Qed.

Example thirty_identical_weights :
  runRegression (repeat (point 100 110) 30) = Return None.
Proof. vm_compute. reflexivity. Qed.

(** Thirty points on the line billed = 1.1 x declared: slope 1.1,
    intercept 0, R2 = 1, and an average overcharge of 10%. *)
Example regression_on_a_line :
  runRegression
    (map (fun i => point (100 * Z.of_nat i) (110 * Z.of_nat i)) (seq 1 30)) =
  Return (Some {| result_provider := "Delhivery"; pointCount := 30;
                  slope := dec 11 1; intercept := Fin 0; r2 := Fin 1;
                  avgOverchargePct := Fin 10 |}).
Proof. vm_compute. reflexivity. Qed.

(** *** The average overcharge *)

(** C3 on a sample with one declared weight of 0: 29 points overcharged
    by 10% and one point left out of the sum.  The mean over the points
    with a declared weight above 0 is 10.00; [runRegression] divides the
    sum of the 29 ratios by all 30 points and reports 9.67. *)
Theorem avgOverchargePct_divides_by_all_points :
  (exists r, runRegression sample30 = Return (Some r) /\
             avgOverchargePct r = dec 967 2) /\
  length (positivePoints sample30) = 29%nat /\
  specAvgOverchargePct sample30 = Fin 10.
Proof.
  split; [eexists; split; vm_compute; reflexivity |].
  split; vm_compute; reflexivity.
Qed.

End RegressionFacts.

(** ** csv-normalizer *)

Module NormalizerFacts.
Import CsvNormalizer.

(** C7: [normalizeWeight] applied to its own output gives that output
    back, a number passes through unchanged, and "500g" and "0.5kg" are
    both 0.5. *)
Theorem normalizeWeight_idempotent :
  (forall raw : JsValue,
     normalizeWeight (JsNumber (normalizeWeight raw)) = normalizeWeight raw) /\
  (forall n : num, normalizeWeight (JsNumber n) = n) /\
  normalizeWeight (JsString "500g") = dec 5 1 /\
  normalizeWeight (JsString "0.5kg") = dec 5 1 /\
  dec 5 1 = Fin (1 # 2).
Proof.
  repeat split; try reflexivity.
Qed.

Lemma digit_not_upper (ch : ascii) : is_digit ch = true -> is_upper ch = false.
Proof.
  unfold is_digit, is_upper. intros H. apply andb_true_iff in H as [H1 H2].
  apply Nat.leb_le in H1, H2. apply andb_false_iff. left. apply Nat.leb_gt. lia.
Qed.

Lemma digit_not_space (ch : ascii) : is_digit ch = true -> is_space ch = false.
Proof.
  unfold is_digit, is_space. intros H. apply andb_true_iff in H as [H1 H2].
  apply Nat.leb_le in H1, H2. apply orb_false_iff. split.
  - apply andb_false_iff. right. apply Nat.leb_gt. lia.
  - apply Nat.eqb_neq. lia.
Qed.

Lemma toLowerCase_digits (ds t : string) :
  allDigits ds = true -> toLowerCase (ds ++ t) = (ds ++ toLowerCase t)%string.
Proof.
  induction ds as [| ch ds IH]; simpl; [reflexivity |].
  intros H. apply andb_true_iff in H as [Hch Hds].
  unfold lower_char. rewrite (digit_not_upper ch Hch), (IH Hds). reflexivity.
Qed.

Lemma trimEnd_digits (ds t : string) :
  allDigits ds = true -> trimEnd t <> EmptyString ->
  trimEnd (ds ++ t) = (ds ++ trimEnd t)%string /\ trimEnd (ds ++ t) <> EmptyString.
Proof.
  intros Hds Ht. induction ds as [| ch ds IH]; simpl; [now split |].
  simpl in Hds. apply andb_true_iff in Hds as [_ Hds].
  destruct (IH Hds) as [E Hne]. rewrite E.
  change (String ch ds ++ trimEnd t)%string with (String ch (ds ++ trimEnd t)).
  destruct (ds ++ trimEnd t)%string eqn:E'; [congruence |].
  split; [reflexivity | discriminate].
Qed.

Lemma trimStart_digits (ch : ascii) (ds t : string) :
  is_digit ch = true -> trimStart (String ch ds ++ t) = (String ch ds ++ t)%string.
Proof. intros H. simpl. now rewrite (digit_not_space ch H). Qed.

Lemma spanDigits_digits (ds t : string) :
  allDigits ds = true -> spanDigits t = (EmptyString, t) ->
  spanDigits (ds ++ t) = (ds, t).
Proof.
  intros Hds Ht. induction ds as [| ch ds IH]; simpl; [exact Ht |].
  simpl in Hds. apply andb_true_iff in Hds as [Hch Hds].
  now rewrite Hch, (IH Hds).
Qed.

(** Whole numbers of grams and of kilograms, in general: "<digits>g" is
    the number over 1000 and "<digits>kg" is the number. *)
Lemma normalizeWeight_grams_kilograms (ch : ascii) (ds : string) :
  allDigits (String ch ds) = true ->
  normalizeWeight (JsString (String ch ds ++ "g")) =
    (parseFloat (String ch ds) / Fin 1000)%num /\
  normalizeWeight (JsString (String ch ds ++ "kg")) = parseFloat (String ch ds).
Proof.
  intros Hds. pose proof Hds as Hch. simpl in Hch.
  apply andb_true_iff in Hch as [Hch _].
  assert (Hstr : forall unit : string,
            unit = "g"%string \/ unit = "kg"%string ->
            trim (toLowerCase (String ch ds ++ unit)) = (String ch ds ++ unit)%string).
  { intros unit Hunit. rewrite (toLowerCase_digits _ _ Hds).
    assert (toLowerCase unit = unit /\ trimEnd unit = unit /\ trimEnd unit <> EmptyString)
      as (-> & Hend & Hne) by (destruct Hunit as [-> | ->]; repeat split; discriminate).
    unfold trim. rewrite (trimStart_digits ch ds unit Hch).
    destruct (trimEnd_digits (String ch ds) unit Hds Hne) as [-> _]. now rewrite Hend. }
  assert (Hnum : forall unit : string,
            spanDigits unit = (EmptyString, unit) ->
            (forall r, unit <> String "." r) ->
            matchNumeral (String ch ds ++ unit) = Some (String ch ds, unit)).
  { intros unit Hunit Hdot. unfold matchNumeral.
    rewrite (spanDigits_digits _ _ Hds Hunit).
    destruct unit as [| c r]; [reflexivity |].
    destruct (Ascii.eqb_spec c ".") as [-> | Hc]; [now contradiction (Hdot r) |].
    destruct c as [[] [] [] [] [] [] [] []]; try reflexivity. now contradiction Hc. }
  split.
  - change (normalizeWeight (JsString (String ch ds ++ "g")))
      with (match gramMatch (trim (toLowerCase (String ch ds ++ "g"))) with
            | Some g1 => (parseFloat g1 / Fin 1000)%num
            | None =>
                match kgMatch (trim (toLowerCase (String ch ds ++ "g"))) with
                | Some g1 => parseFloat g1
                | None =>
                    let n := parseFloat (trim (toLowerCase (String ch ds ++ "g"))) in
                    if isNaN n then Fin 0 else n
                end
            end).
    rewrite Hstr by now left. unfold gramMatch.
    rewrite Hnum by (try reflexivity; discriminate). reflexivity.
  - change (normalizeWeight (JsString (String ch ds ++ "kg")))
      with (match gramMatch (trim (toLowerCase (String ch ds ++ "kg"))) with
            | Some g1 => (parseFloat g1 / Fin 1000)%num
            | None =>
                match kgMatch (trim (toLowerCase (String ch ds ++ "kg"))) with
                | Some g1 => parseFloat g1
                | None =>
                    let n := parseFloat (trim (toLowerCase (String ch ds ++ "kg"))) in
                    if isNaN n then Fin 0 else n
                end
            end).
    rewrite Hstr by now right. unfold gramMatch, kgMatch.
    rewrite Hnum by (try reflexivity; discriminate). reflexivity.
Qed.

(** The other forms the source documents. *)
Example normalizeWeight_forms :
  map normalizeWeight
    [ JsString "0.5"; JsString "0.5 kg"; JsString "500 grams";
      JsString "500 gram"; JsString "n/a"; JsString ""; JsNull ] =
  [ dec 5 1; dec 5 1; dec 5 1; dec 5 1; Fin 0; Fin 0; Fin 0 ].
Proof. vm_compute. reflexivity. Qed.

(** *** The header locator *)

Lemma rowScore_0 (row : list string) (rest : list (list string)) :
  rowScore (row :: rest) 0 =
  if (length row <? 2)%nat then 0%nat else matchCount row.
Proof. reflexivity. Qed.

Lemma rowScore_S (row : list string) (rest : list (list string)) (j : nat) :
  rowScore (row :: rest) (S j) = rowScore rest j.
Proof. reflexivity. Qed.

Lemma reached_0 (row : list string) (rest : list (list string)) :
  reached (row :: rest) 0.
Proof. split; [simpl; lia | intros i Hi; lia]. Qed.

Lemma reached_S (row : list string) (rest : list (list string)) (j : nat) :
  reached (row :: rest) (S j) <->
  (rowScore (row :: rest) 0 < 4)%nat /\ reached rest j.
Proof.
  unfold reached. split.
  - intros [Hlen Hbefore]. split; [apply Hbefore; lia |].
    split; [simpl in Hlen; lia |].
    intros i Hi. rewrite <- (rowScore_S row rest i). apply Hbefore. lia.
  - intros [H0 [Hlen Hbefore]]. split; [simpl; lia |].
    intros [| i] Hi; [exact H0 |].
    rewrite rowScore_S. apply Hbefore. lia.
Qed.

Lemma scanRows_spec (l : list (list string)) :
  forall i bestIndex bestMatches,
    keepsBest l bestIndex bestMatches (scanRows l i bestIndex bestMatches) \/
    firstBest l i bestMatches (scanRows l i bestIndex bestMatches).
Proof.
  induction l as [| row rest IH]; intros i bi bm.
  - left. split; [reflexivity |]. intros j [Hj _]. simpl in Hj. lia.
  - cbn [scanRows].
    pose proof (rowScore_0 row rest) as H0.
    destruct (length row <? 2)%nat.
    + (* not a candidate *)
      destruct (IH (S i) bi bm) as [[Hk Hall] | (j & Hj & Hk & Hbm & Hbest)].
      * left. split; [exact Hk |].
        intros [| j] Hj; [lia |].
        apply reached_S in Hj. rewrite rowScore_S. apply Hall, Hj.
      * right. exists (S j). rewrite rowScore_S.
        split; [apply reached_S; split; [lia | exact Hj] |].
        split; [lia |]. split; [exact Hbm |].
        intros [| j'] Hj'; [lia |].
        apply reached_S in Hj'. rewrite rowScore_S.
        destruct (Hbest j' (proj2 Hj')) as [Hle Heq]. split; [exact Hle | lia].
    + (* a candidate *)
      set (mc := matchCount row) in *.
      destruct (Nat.ltb_spec bm mc) as [Hlt | Hnlt];
        destruct (Nat.leb_spec 4 mc) as [Hstrong | Hweak].
      * right. exists 0%nat. rewrite H0.
        split; [apply reached_0 |]. split; [lia |]. split; [exact Hlt |].
        intros [| j'] Hj'; [lia |].
        apply reached_S in Hj'. lia.
      * destruct (IH (S i) i mc) as [[Hk Hall] | (j & Hj & Hk & Hbm & Hbest)].
        -- right. exists 0%nat. rewrite H0.
           split; [apply reached_0 |]. split; [lia |]. split; [exact Hlt |].
           intros [| j'] Hj'; [lia |].
           apply reached_S in Hj'. rewrite rowScore_S.
           pose proof (Hall j' (proj2 Hj')). lia.
        -- right. exists (S j). rewrite rowScore_S.
           split; [apply reached_S; split; [lia | exact Hj] |].
           split; [lia |]. split; [lia |].
           intros [| j'] Hj'; [lia |].
           apply reached_S in Hj'. rewrite rowScore_S.
           destruct (Hbest j' (proj2 Hj')) as [Hle Heq]. split; [exact Hle | lia].
      * left. split; [reflexivity |].
        intros [| j] Hj; [lia |].
        apply reached_S in Hj. lia.
      * destruct (IH (S i) bi bm) as [[Hk Hall] | (j & Hj & Hk & Hbm & Hbest)].
        -- left. split; [exact Hk |].
           intros [| j] Hj; [lia |].
           apply reached_S in Hj. rewrite rowScore_S. apply Hall, Hj.
        -- right. exists (S j). rewrite rowScore_S.
           split; [apply reached_S; split; [lia | exact Hj] |].
           split; [lia |]. split; [exact Hbm |].
           intros [| j'] Hj'; [lia |].
           apply reached_S in Hj'. rewrite rowScore_S.
           destruct (Hbest j' (proj2 Hj')) as [Hle Heq]. split; [exact Hle | lia].
Qed.

Lemma rowScore_firstn (rows : list (list string)) (n j : nat) :
  (j < n)%nat -> rowScore (firstn n rows) j = rowScore rows j.
Proof.
  intros Hj. unfold rowScore. rewrite nth_error_firstn.
  destruct (Nat.ltb_spec j n); [reflexivity | lia].
Qed.

Lemma reached_scanned (rows : list (list string)) (j : nat) :
  reached (firstn (Nat.min (length rows) 10) rows) j <-> scanned rows j.
Proof.
  unfold reached, scanned. rewrite length_firstn.
  split; intros [Hlen Hbefore]; (split; [lia |]); intros i Hi.
  - rewrite <- (rowScore_firstn rows (Nat.min (length rows) 10) i) by lia.
    now apply Hbefore.
  - rewrite rowScore_firstn by lia. now apply Hbefore.
Qed.

(** What the loop of [findHeaderRow] computes.  Its candidates are the
    rows with at least 2 cells, empty or not; a row that is no candidate
    counts for nothing.  The rows reached are the first 10, up to and
    including the first one that matches 4 keywords or more.  The result
    is the index of a reached row with the highest keyword count, the
    earliest of them when several tie: so a row matching 4 keywords or
    more ends the scan and is returned, a result other than 0 is a
    candidate matching some keyword, and the result is 0 when no row
    matches any keyword or the grid is empty. *)
Theorem findHeaderRow_first_best (rows : list (list string)) :
  let k := findHeaderRow rows in
  (rows = [] -> k = 0%nat) /\
  (rows <> [] -> scanned rows k) /\
  (forall j, scanned rows j ->
             (rowScore rows j <= rowScore rows k)%nat /\
             (rowScore rows j = rowScore rows k -> (k <= j)%nat)) /\
  (forall j, scanned rows j -> (4 <= rowScore rows j)%nat -> k = j) /\
  (k <> 0%nat ->
   exists row, nth_error rows k = Some row /\
               (2 <= length row)%nat /\ (0 < matchCount row)%nat).
Proof.
  intros k.
  assert (Hempty : rows = [] -> k = 0%nat) by (intros ->; reflexivity).
  assert (Hbest : (rows <> [] -> scanned rows k) /\
                  forall j, scanned rows j ->
                            (rowScore rows j <= rowScore rows k)%nat /\
                            (rowScore rows j = rowScore rows k -> (k <= j)%nat)).
  { subst k. unfold findHeaderRow.
    set (l := firstn (Nat.min (length rows) 10) rows).
    destruct (scanRows_spec l 0 0 0) as [[Hk Hall] | (j & Hj & Hk & Hbm & Hfirst)].
    - rewrite Hk. split.
      + intros Hne. destruct rows as [| row rest]; [congruence |].
        split; [simpl; lia | intros i Hi; lia].
      + intros j Hj. pose proof Hj as Hj'. apply reached_scanned in Hj'.
        fold l in Hj'. apply Hall in Hj'. unfold l in Hj'.
        rewrite rowScore_firstn in Hj' by (destruct Hj; lia). lia.
    - rewrite Hk. simpl. pose proof Hj as Hjs. apply reached_scanned in Hjs.
      split; [intros _; exact Hjs |].
      intros j' Hj'. pose proof Hj' as Hr. apply reached_scanned in Hr.
      fold l in Hr. destruct (Hfirst j' Hr) as [Hle Heq]. unfold l in Hle, Heq.
      rewrite !rowScore_firstn in Hle, Heq by (destruct Hjs, Hj'; lia).
      split; assumption. }
  destruct Hbest as [Hscan Hbest].
  split; [exact Hempty | split; [exact Hscan | split; [exact Hbest |]]].
  split.
  - intros j Hj Hstrong.
    assert (Hne : rows <> []).
    { destruct Hj as [Hlen _]. destruct rows; [simpl in Hlen; lia | discriminate]. }
    pose proof (Hscan Hne) as Hk.
    destruct (Hbest j Hj) as [Hle Heq], (Hbest k Hk) as [_ Heq'].
    destruct (Nat.lt_trichotomy k j) as [Hlt | [-> | Hgt]]; [| reflexivity |].
    + destruct Hj as [_ Hbefore]. pose proof (Hbefore k Hlt). lia.
    + destruct Hk as [_ Hbefore]. pose proof (Hbefore j Hgt). lia.
  - intros Hk0.
    assert (Hne : rows <> []) by (intros E; apply Hk0, Hempty, E).
    assert (H0 : scanned rows 0).
    { split; [destruct rows; [congruence | simpl; lia] | intros i Hi; lia]. }
    destruct (Hbest 0%nat H0) as [Hle Heq].
    assert (Hpos : (0 < rowScore rows k)%nat) by lia.
    unfold rowScore in Hpos.
    destruct (nth_error rows k) as [row |]; [| lia].
    exists row. split; [reflexivity |].
    destruct (Nat.ltb_spec (length row) 2); [lia | split; lia].
Qed.

Lemma findHeaderRow_first_best_witness :
  scanned titled_grid 1 /\ findHeaderRow titled_grid = 1%nat.
Proof.
  assert (H : scanned titled_grid 1).
  { split; [simpl; lia |]. intros i Hi. assert (i = 0%nat) as -> by lia.
    vm_compute. lia. }
  split; [exact H |].
  apply (proj1 (proj2 (proj2 (proj2 (findHeaderRow_first_best titled_grid))))).
  - exact H.
  - vm_compute. lia.
Defined.

(** C6 fails, and with it the comment above [findHeaderRow].  In a sheet
    whose second row is a title next to an empty cell, the title row has a
    single non-empty cell, the only one of its cells to contain a keyword,
    so that it is no candidate and no header; the row below it has two
    cells with a keyword each.  [findHeaderRow] tests [row.length < 2],
    which counts the empty cell, finds 5 keywords in the title and
    returns the title row; a locator whose candidates are the rows with
    at least 2 non-empty cells returns the header row below it. *)
Lemma findHeaderRow_counts_empty_cells :
  nth_error titled_grid 1 = Some ["Shipment invoice: billed amount by date"; ""]%string /\
  nonEmptyCells ["Shipment invoice: billed amount by date"; ""]%string = 1%nat /\
  keywordCells ["Shipment invoice: billed amount by date"; ""]%string = 1%nat /\
  matchCount ["Shipment invoice: billed amount by date"; ""]%string = 5%nat /\
  nth_error titled_grid 2 = Some ["AWB"; "Zone"]%string /\
  keywordCells ["AWB"; "Zone"]%string = 2%nat /\
  findHeaderRow titled_grid = 1%nat /\
  specFindHeaderRow titled_grid = 2%nat.
Proof. repeat split. Qed.

(** A grid with two metadata rows followed by the header row. *)
Example findHeaderRow_metadata_rows :
  findHeaderRow
    [ ["Report Generated: Jan 2024"]; ["Account: XYZ Corp"];
      ["AWB No."; "Zone"; "Weight"] ]%string = 2%nat.
Proof. reflexivity. Qed.

End NormalizerFacts.

(** ** column-matcher *)

Module MatcherFacts.
Import ColumnMatcher.

Lemma insertCandidate_Forall (P : Candidate -> Prop) (c : Candidate) (l : list Candidate) :
  P c -> Forall P l -> Forall P (insertCandidate c l).
Proof.
  intros Hc Hl. induction Hl as [| d l Hd Hl IH]; simpl.
  - repeat constructor. exact Hc.
  - destruct (score d - score c <=? Fin 0)%num; repeat constructor; assumption.
Qed.

Lemma sortCandidates_Forall (P : Candidate -> Prop) (l : list Candidate) :
  Forall P l -> Forall P (sortCandidates l).
Proof.
  unfold sortCandidates. induction 1 as [| c l Hc Hl IH]; simpl.
  - constructor.
  - now apply insertCandidate_Forall.
Qed.

Lemma candidatesFor_aboveMinimum (rawHeaders : list string) (canonical : string) :
  Forall aboveMinimum (candidatesFor rawHeaders canonical).
Proof.
  unfold candidatesFor. apply sortCandidates_Forall.
  set (variations := default [] (assoc canonical VARIATIONS)).
  assert (G : forall cands, Forall aboveMinimum cands ->
                Forall aboveMinimum
                  (fold_left
                     (fun cands raw =>
                        let best := bestScore canonical variations raw in
                        if (best >=? dec 4 1)%num
                        then cands ++ [ {| raw := raw; score := best |} ]
                        else cands)
                     rawHeaders cands)).
  { induction rawHeaders as [| h hs IH]; intros cands Hc; cbn [fold_left];
      [exact Hc |].
    apply IH. cbv zeta.
    destruct (bestScore canonical variations h >=? dec 4 1)%num eqn:E; [| exact Hc].
    apply Forall_app. split; [exact Hc |]. repeat constructor. exact E. }
  apply G. constructor.
Qed.

Lemma buildCandidates_lookup (rawHeaders fields : list string) :
  forall (m : gmap string (list Candidate)) f,
    fold_left
      (fun candidates canonical =>
         <[ canonical := candidatesFor rawHeaders canonical ]> candidates)
      fields m !! f =
    if bool_decide (f ∈ fields) then Some (candidatesFor rawHeaders f) else m !! f.
Proof.
  induction fields as [| c fields IH]; intros m f; simpl.
  - reflexivity.
  - rewrite IH. destruct (decide (f = c)) as [-> | Hne].
    + rewrite lookup_insert_eq.
      rewrite (bool_decide_eq_true_2 (c ∈ c :: fields))
        by (apply elem_of_cons; now left).
      now destruct (bool_decide (c ∈ fields)).
    + rewrite lookup_insert_ne by congruence.
      destruct (decide (f ∈ fields)) as [Hin | Hnin].
      * rewrite (bool_decide_eq_true_2 _ Hin).
        rewrite bool_decide_eq_true_2 by (apply elem_of_cons; now right).
        reflexivity.
      * rewrite (bool_decide_eq_false_2 _ Hnin).
        rewrite bool_decide_eq_false_2 by (apply not_elem_of_cons; now split).
        reflexivity.
Qed.

(** Every canonical name has its candidates in the score matrix. *)
Lemma buildCandidates_defined (rawHeaders : list string) (f : string) :
  f ∈ ALL_CANONICAL ->
  buildCandidates rawHeaders !! f = Some (candidatesFor rawHeaders f).
Proof.
  intros Hf. unfold buildCandidates. rewrite buildCandidates_lookup.
  now rewrite bool_decide_eq_true_2.
Qed.

Lemma buildCandidates_good (rawHeaders : list string) :
  goodCandidates (buildCandidates rawHeaders).
Proof.
  intros f l. unfold buildCandidates. rewrite buildCandidates_lookup.
  destruct (bool_decide (f ∈ ALL_CANONICAL)).
  - intros [= <-]. apply candidatesFor_aboveMinimum.
  - rewrite lookup_empty. discriminate.
Qed.

Lemma assigned_empty : assigned (mkAssignment ∅ ∅ ∅).
Proof.
  split; simpl.
  - intros f h. rewrite lookup_empty. discriminate.
  - intros f g h. rewrite lookup_empty. discriminate.
  - intros f. now rewrite !lookup_empty.
Qed.

Lemma assign_assigned (candidates : gmap string (list Candidate))
    (st : Assignment) (canonical : string) :
  goodCandidates candidates -> assigned st ->
  assigned (assign candidates st canonical).
Proof.
  intros Hgood [Hused Honce Hconf]. unfold assign.
  assert (Hc : Forall aboveMinimum (default [] (candidates !! canonical))).
  { destruct (candidates !! canonical) as [l |] eqn:E; simpl; [| constructor].
    exact (Hgood _ _ E). }
  destruct (List.find _ (default [] (candidates !! canonical))) as [top |] eqn:Hfind.
  - apply find_some in Hfind as [Hin Hfree].
    apply negb_true_iff, bool_decide_eq_false in Hfree.
    rewrite Forall_forall in Hc. apply list_elem_of_In, Hc in Hin.
    split; simpl.
    + intros f h. destruct (decide (canonical = f)) as [<- | Hne].
      * rewrite lookup_insert_eq. intros [= <-]. set_solver.
      * rewrite lookup_insert_ne by exact Hne. intros H. apply Hused in H. set_solver.
    + intros f g h.
      destruct (decide (canonical = f)) as [<- | Hf],
               (decide (canonical = g)) as [<- | Hg];
        rewrite ?lookup_insert_eq, ?lookup_insert_ne by assumption.
      * reflexivity.
      * intros [= <-] H. apply Hused in H. contradiction.
      * intros H [= <-]. apply Hused in H. contradiction.
      * apply Honce.
    + intros f. destruct (decide (canonical = f)) as [<- | Hne].
      * rewrite !lookup_insert_eq. exact Hin.
      * rewrite !lookup_insert_ne by exact Hne. apply Hconf.
  - split; simpl.
    + intros f h. destruct (decide (canonical = f)) as [<- | Hne].
      * rewrite lookup_insert_eq. discriminate.
      * rewrite lookup_insert_ne by exact Hne. apply Hused.
    + intros f g h.
      destruct (decide (canonical = f)) as [<- | Hf],
               (decide (canonical = g)) as [<- | Hg];
        rewrite ?lookup_insert_eq, ?lookup_insert_ne by assumption;
        try discriminate.
      apply Honce.
    + intros f. destruct (decide (canonical = f)) as [<- | Hne].
      * rewrite !lookup_insert_eq. reflexivity.
      * rewrite !lookup_insert_ne by exact Hne. apply Hconf.
Qed.

Lemma assign_keeps (candidates : gmap string (list Candidate))
    (st : Assignment) (canonical f : string) :
  f = canonical \/ is_Some (a_mapping st !! f) ->
  is_Some (a_mapping (assign candidates st canonical) !! f).
Proof.
  intros H. unfold assign.
  destruct (List.find _ _); simpl;
    (destruct (decide (canonical = f)) as [<- | Hne];
     [rewrite lookup_insert_eq; eauto
     | rewrite lookup_insert_ne by exact Hne; destruct H; [congruence | assumption]]).
Qed.

Lemma assignment_fold (candidates : gmap string (list Candidate)) (fields : list string) :
  goodCandidates candidates ->
  forall st, assigned st ->
    assigned (fold_left (assign candidates) fields st) /\
    forall f, f ∈ fields \/ is_Some (a_mapping st !! f) ->
              is_Some (a_mapping (fold_left (assign candidates) fields st) !! f).
Proof.
  intros Hgood. induction fields as [| c fields IH]; intros st Hst; simpl.
  - split; [exact Hst |].
    intros f [Hf | Hf]; [now apply elem_of_nil in Hf | exact Hf].
  - destruct (IH _ (assign_assigned candidates st c Hgood Hst)) as [Hinv Hkeys].
    split; [exact Hinv |].
    intros f Hf. apply Hkeys.
    destruct (decide (f ∈ fields)) as [Hin | Hnin]; [now left | right].
    apply assign_keeps. destruct Hf as [Hf | Hf]; [left | now right].
    apply elem_of_cons in Hf as [Hf | Hf]; [exact Hf | contradiction].
Qed.

Lemma detectColumns_assigned (rawHeaders : list string) :
  exists st, assigned st /\
             mapping (detectColumns rawHeaders) = a_mapping st /\
             confidences (detectColumns rawHeaders) = a_confidences st /\
             forall f, f ∈ ALL_CANONICAL -> is_Some (a_mapping st !! f).
Proof.
  destruct (assignment_fold (buildCandidates rawHeaders) ALL_CANONICAL
              (buildCandidates_good rawHeaders) _ assigned_empty) as [Hinv Hkeys].
  eexists. split; [exact Hinv |]. split; [reflexivity |]. split; [reflexivity |].
  intros f Hf. apply Hkeys. now left.
Qed.

(** C5: whatever the raw headers, no raw header is the mapping of two
    canonical fields: two fields mapped to the same header are the same
    field. *)
Theorem detectColumns_unique (rawHeaders : list string) (f g h : string) :
  mapping (detectColumns rawHeaders) !! f = Some (Some h) ->
  mapping (detectColumns rawHeaders) !! g = Some (Some h) ->
  f = g.
Proof.
  destruct (detectColumns_assigned rawHeaders) as (st & Hinv & -> & _ & _).
  apply (mapped_once st Hinv).
Qed.

Lemma detectColumns_unique_witness :
  mapping (detectColumns sample_headers) !! "BilledWeight"%string = Some (Some "Weight"%string) /\
  mapping (detectColumns sample_headers) !! "ActualWeight"%string = Some None /\
  "BilledWeight"%string = "BilledWeight"%string.
Proof.
  assert (H : mapping (detectColumns sample_headers) !! "BilledWeight"%string =
              Some (Some "Weight"%string)) by (vm_compute; reflexivity).
  split; [exact H |]. split; [vm_compute; reflexivity |].
  exact (detectColumns_unique sample_headers _ _ _ H H).
Defined.

(** C10: for every canonical field, the mapping and the confidence are
    both set; a field mapped to a header has a confidence of at least 0.40,
    a field mapped to null has confidence exactly 0; so the mapping is
    null exactly when the confidence is below 0.40. *)
Theorem detectColumns_confidence (rawHeaders : list string) (f : string) :
  f ∈ ALL_CANONICAL ->
  exists (m : option string) (s : num),
    mapping (detectColumns rawHeaders) !! f = Some m /\
    confidences (detectColumns rawHeaders) !! f = Some s /\
    (forall h, m = Some h -> (s >=? dec 4 1)%num = true) /\
    (m = None -> s = Fin 0) /\
    (m = None <-> (s <? dec 4 1)%num = true).
Proof.
  intros Hf.
  destruct (detectColumns_assigned rawHeaders) as (st & Hinv & -> & -> & Hkeys).
  destruct (Hkeys f Hf) as [m Hm].
  pose proof (mapped_confidence st Hinv f) as Hc. rewrite Hm in Hc.
  destruct (a_confidences st !! f) as [s |] eqn:Hs; [| now destruct m].
  exists m, s. split; [exact Hm |]. split; [reflexivity |].
  destruct m as [h |].
  - split; [intros _ _; exact Hc |]. split; [discriminate |].
    split; [discriminate |]. intros Hlt. exfalso.
    unfold geb in Hc. apply ltb_not_leb in Hlt. congruence.
  - subst s. split; [discriminate |]. split; [reflexivity |].
    split; [reflexivity | reflexivity].
Qed.

Lemma detectColumns_confidence_witness :
  "BilledWeight"%string ∈ ALL_CANONICAL /\
  exists (m : option string) (s : num),
    mapping (detectColumns sample_headers) !! "BilledWeight"%string = Some m /\
    confidences (detectColumns sample_headers) !! "BilledWeight"%string = Some s /\
    (forall h, m = Some h -> (s >=? dec 4 1)%num = true) /\
    (m = None -> s = Fin 0) /\
    (m = None <-> (s <? dec 4 1)%num = true).
Proof.
  assert (H : "BilledWeight"%string ∈ ALL_CANONICAL).
  { apply list_elem_of_In. vm_compute. tauto. }
  split; [exact H | exact (detectColumns_confidence sample_headers _ H)].
Defined.

End MatcherFacts.

(* ================================================================== *)
(** * Further properties                                                *)
(* ================================================================== *)

(** ** billing-engine: the run as a whole *)

Module EngineFacts.

(** Each row is judged on its own: the discrepancies of two batches audited
    together are those of the first batch followed by those of the second,
    and the row counts add up. *)
Theorem analyzeInvoice_concat (c : ContractRules) (rows1 rows2 : list CsvRow) :
  discrepancies (analyzeInvoice (rows1 ++ rows2) c) =
    (discrepancies (analyzeInvoice rows1 c) ++
     discrepancies (analyzeInvoice rows2 c))%list /\
  totalRows (analyzeInvoice (rows1 ++ rows2) c) =
    (totalRows (analyzeInvoice rows1 c) + totalRows (analyzeInvoice rows2 c))%nat.
Proof.
  rewrite !analyzeInvoice_discrepancies, flagged_app. split; [reflexivity |].
  unfold analyzeInvoice.
  destruct (fold_left (auditRow c) (rows1 ++ rows2) ([], Fin 0)),
           (fold_left (auditRow c) rows1 ([], Fin 0)),
           (fold_left (auditRow c) rows2 ([], Fin 0)).
  simpl. apply length_app.
Qed.

Lemma flagged_single (c : ContractRules) (row : CsvRow) :
  flagged c [row] = [] \/
  exists d, flagged c [row] = [d] /\ awb_number d = AWB row /\
            billed_amount d = TotalBilledAmount row /\
            issue_type d = join ", " (reasons c row) /\
            correct_amount d = toFixed2 (expectedTotal c row) /\
            difference d = toFixed2 (rowDifference c row) /\
            (rowDifference c row <=? Fin 1)%num = false.
Proof.
  unfold flagged. cbn [fold_left auditRow fst].
  destruct (rowDifference c row <=? Fin 1)%num eqn:E; [now left | right].
  eexists. repeat split.
Qed.

Lemma flagged_follow_rows (c : ContractRules) (rows : list CsvRow) :
  sublist (map awb_number (flagged c rows)) (map AWB rows).
Proof.
  induction rows as [| row rows IH]; [constructor |].
  rewrite flagged_cons, map_app. cbn [map].
  destruct (flagged_single c row) as [-> | (d & -> & Hawb & _)]; cbn [map app].
  - now apply sublist_cons.
  - rewrite Hawb. now apply sublist_skip.
Qed.

Lemma flagged_count (c : ContractRules) (rows : list CsvRow) :
  (length (discrepancies (analyzeInvoice rows c))
   <= totalRows (analyzeInvoice rows c))%nat.
Proof.
  assert (Hrows : totalRows (analyzeInvoice rows c) = length rows).
  { unfold analyzeInvoice. now destruct (fold_left (auditRow c) rows ([], Fin 0)). }
  rewrite Hrows, analyzeInvoice_discrepancies.
  pose proof (sublist_length _ _ (flagged_follow_rows c rows)) as H.
  now rewrite !length_map in H.
Qed.

(** The discrepancies follow the rows: their AWBs are, in order, AWBs of
    the input rows, one discrepancy at most per row, so that the flagged
    items never outnumber the rows. *)
Theorem discrepancies_follow_rows (c : ContractRules) (rows : list CsvRow) :
  sublist (map awb_number (discrepancies (analyzeInvoice rows c))) (map AWB rows) /\
  (length (discrepancies (analyzeInvoice rows c)) <= totalRows (analyzeInvoice rows c))%nat.
Proof.
  split; [| apply flagged_count].
  rewrite analyzeInvoice_discrepancies. apply flagged_follow_rows.
Qed.

End EngineFacts.

(** ** audit-history: the record and the stored history *)

Module HistoryFacts.
Import LocalStorage AuditHistory.

Lemma reasons_cases (c : ContractRules) (row : CsvRow) :
  In (reasons c row)
     [ ["Zone Mismatch"; "Weight Overcharge"; "Invalid COD Charge"];
       ["Zone Mismatch"; "Weight Overcharge"];
       ["Zone Mismatch"; "Invalid COD Charge"];
       ["Zone Mismatch"];
       ["Weight Overcharge"; "Invalid COD Charge"];
       ["Weight Overcharge"];
       ["Invalid COD Charge"];
       ["Rate Overcharge"] ]%string.
Proof.
  unfold reasons.
  destruct (negb (String.eqb (BilledZone row) (ActualZone row))),
           (BilledWeight row >? ActualWeight row)%num,
           (String.eqb (OrderType row) "Prepaid"
            && (TotalBilledAmount row >? expectedFreight c row + Fin 1)%num);
    cbn [andb app length Nat.eqb In]; auto 10.
Qed.

(** The labels of the engine, once joined and split again, are counted in
    the weight, zone, COD and other buckets only. *)
Lemma engine_labels (c : ContractRules) (row : CsvRow) (d : Discrepancy) :
  issue_type d = join ", " (reasons c row) ->
  issueTypes d = reasons c row /\ Forall engineBucket (issueTypes d).
Proof.
  intros Hd. unfold issueTypes. rewrite Hd.
  pose proof (reasons_cases c row) as H. cbn [In] in H.
  repeat (destruct H as [<- | H];
          [match goal with
           | |- ?l = ?v /\ _ =>
               assert (E : l = v) by (vm_compute; reflexivity); rewrite E
           end;
           split; [reflexivity |];
           repeat (apply List.Forall_cons; [split; vm_compute; discriminate |]);
           apply List.Forall_nil |]).
  contradiction.
Qed.

Lemma addShare_other_buckets (sh : num) (o : OverchargeByType) (t : string) :
  engineBucket t ->
  duplicateAWB (addShare sh o t) = duplicateAWB o /\
  rtoMismatch (addShare sh o t) = rtoMismatch o.
Proof.
  intros [Hdup Hrto]. unfold addShare, bucketOf in *. destruct o.
  repeat (destruct (includes (toLowerCase t) _); [now split |]);
    try now split.
Qed.

Lemma addDiscrepancy_other_buckets (o : OverchargeByType) (d : Discrepancy) :
  Forall engineBucket (issueTypes d) ->
  duplicateAWB (addDiscrepancy o d) = duplicateAWB o /\
  rtoMismatch (addDiscrepancy o d) = rtoMismatch o.
Proof.
  unfold addDiscrepancy. generalize (share d). intros sh H. revert o.
  induction H as [| t ts Ht Hts IH]; intros o; cbn [fold_left]; [now split |].
  destruct (IH (addShare sh o t)) as [-> ->].
  now apply addShare_other_buckets.
Qed.

Lemma flagged_labels (c : ContractRules) (rows : list CsvRow) :
  Forall (fun d => exists row, In row rows /\ issue_type d = join ", " (reasons c row))
         (flagged c rows).
Proof.
  induction rows as [| row rows IH]; [constructor |].
  rewrite flagged_cons. apply Forall_app. split.
  - destruct (EngineFacts.flagged_single c row) as [-> | (d & -> & _ & _ & Hd & _)];
      constructor; [| constructor].
    exists row. split; [now left | exact Hd].
  - eapply Forall_impl; [exact IH |].
    intros d (row' & Hin & Hd). exists row'. split; [now right | exact Hd].
Qed.

(** Whatever the rows and the contract, the breakdown of a run of the
    engine has nothing in the duplicate and RTO buckets: the engine only
    gives the labels "Zone Mismatch", "Weight Overcharge", "Invalid COD
    Charge" and "Rate Overcharge". *)
Theorem engine_run_has_no_duplicate_or_rto (rows : list CsvRow) (c : ContractRules) :
  duplicateAWB (categorizeOvercharge (discrepancies (analyzeInvoice rows c))) = Fin 0 /\
  rtoMismatch (categorizeOvercharge (discrepancies (analyzeInvoice rows c))) = Fin 0.
Proof.
  rewrite analyzeInvoice_discrepancies.
  assert (H : forall ds o,
             Forall (fun d => Forall engineBucket (issueTypes d)) ds ->
             duplicateAWB (fold_left addDiscrepancy ds o) = duplicateAWB o /\
             rtoMismatch (fold_left addDiscrepancy ds o) = rtoMismatch o).
  { intros ds o Hds. revert o.
    induction Hds as [| d ds Hd Hds IH]; intros o; cbn [fold_left]; [now split |].
    destruct (IH (addDiscrepancy o d)) as [-> ->].
    now apply addDiscrepancy_other_buckets. }
  assert (Hds : Forall (fun d => Forall engineBucket (issueTypes d)) (flagged c rows)).
  { eapply Forall_impl; [apply flagged_labels |].
    intros d (row & _ & Hd). now apply (engine_labels c row). }
  destruct (H _ (mkOverchargeByType (Fin 0) (Fin 0) (Fin 0) (Fin 0) (Fin 0) (Fin 0)) Hds)
    as [Hdup Hrto].
  fold (accumulateOvercharge (flagged c rows)) in Hdup, Hrto.
  unfold categorizeOvercharge.
  destruct (accumulateOvercharge (flagged c rows)). cbn in *.
  subst. split; reflexivity.
Qed.

(** *** The stored history *)

Lemma sliceLast_length {A : Type} (n : nat) (l : list A) :
  length (sliceLast n l) = Nat.min n (length l).
Proof. unfold sliceLast. rewrite length_skipn. lia. Qed.

Lemma sliceLast_short {A : Type} (n : nat) (l : list A) :
  (length l <= n)%nat -> sliceLast n l = l.
Proof.
  intros H. unfold sliceLast. replace (length l - n)%nat with 0%nat by lia.
  reflexivity.
Qed.

Lemma sliceLast_twice {A : Type} (m n : nat) (l : list A) :
  (m <= n)%nat -> sliceLast m (sliceLast n l) = sliceLast m l.
Proof.
  intros H. unfold sliceLast at 1. rewrite sliceLast_length.
  unfold sliceLast. rewrite skipn_skipn. f_equal. lia.
Qed.

Lemma sliceLast_snoc {A : Type} (n : nat) (l : list A) (x : A) :
  (1 <= n)%nat -> sliceLast n (l ++ [x]) = (sliceLast (n - 1) l ++ [x])%list.
Proof.
  intros H. unfold sliceLast. rewrite length_app, skipn_app. cbn [length].
  replace (length l + 1 - n)%nat with (length l - (n - 1))%nat by lia.
  replace (length l - (n - 1) - length l)%nat with 0%nat by lia.
  reflexivity.
Qed.

Lemma sliceLast_push {A : Type} (n : nat) (l : list A) (x : A) :
  (1 <= n)%nat -> sliceLast n (sliceLast n l ++ [x]) = sliceLast n (l ++ [x]).
Proof.
  intros H. rewrite !sliceLast_snoc by exact H. now rewrite sliceLast_twice by lia.
Qed.

Lemma save_working {J : Type} (json : AuditRecord -> J)
    (record : AuditRecord) (b : Browser J) :
  working b ->
  working (saveAuditRecord json record b) /\
  loadAuditHistory (saveAuditRecord json record b) =
    sliceLast MAX_RECORDS (loadAuditHistory b ++ [json record]).
Proof.
  intros (Hw & Hr & Hrm & Hacc).
  unfold saveAuditRecord. rewrite Hw, Hacc. cbn [negb].
  split; [repeat split; assumption |].
  unfold loadAuditHistory at 1, loadArray. cbn. now rewrite Hw, Hr.
Qed.

(** In a browser whose store works, saving a record and loading the
    history gives the earlier history with the record at the end, cut to
    its last 500 entries: the new record is the last one, at most 500
    are kept, and the entries dropped are the oldest. *)
Theorem saveAuditRecord_then_load {J : Type} (json : AuditRecord -> J)
    (record : AuditRecord) (b : Browser J) :
  working b ->
  let history := loadAuditHistory (saveAuditRecord json record b) in
  history = sliceLast MAX_RECORDS (loadAuditHistory b ++ [json record]) /\
  last history = Some (json record) /\
  (length history <= 500)%nat /\
  exists dropped, (dropped ++ history)%list = (loadAuditHistory b ++ [json record])%list.
Proof.
  intros Hb history. subst history.
  destruct (save_working json record b Hb) as [_ ->].
  split; [reflexivity |]. split; [| split].
  - rewrite sliceLast_snoc by (unfold MAX_RECORDS; lia). apply last_snoc.
  - rewrite sliceLast_length. unfold MAX_RECORDS. lia.
  - eexists. unfold sliceLast. apply firstn_skipn.
Qed.

Lemma saveAuditRecord_then_load_witness :
  loadAuditHistory
    (saveAuditRecord (fun r => id r)
       (buildAuditRecord (mkReadings 1700000000000 "0.k3j9x2a" 1700000000001)
          (analyzeInvoice [scenario_row] scenario_contract) "Delhivery" "invoice.csv")
       (emptyBrowser string)) =
  ["1700000000000-k3j9x"%string].
Proof.
  destruct (saveAuditRecord_then_load (fun r => id r)
              (buildAuditRecord (mkReadings 1700000000000 "0.k3j9x2a" 1700000000001)
                 (analyzeInvoice [scenario_row] scenario_contract)
                 "Delhivery" "invoice.csv")
              (emptyBrowser string)) as [H _].
  - repeat split.
  - rewrite H. vm_compute. reflexivity.
Defined.

Lemma sliceLast_app_l {A : Type} (n : nat) (l k : list A) :
  sliceLast n (sliceLast n l ++ k) = sliceLast n (l ++ k).
Proof.
  unfold sliceLast at 1 3. rewrite !length_app, sliceLast_length, !skipn_app.
  rewrite sliceLast_length. unfold sliceLast. rewrite skipn_skipn.
  f_equal; f_equal; lia.
Qed.

(** Saving records one after the other in a working browser that starts
    without a history leaves the last 500 of them, oldest first. *)
Theorem saved_history_is_latest_500 {J : Type} (json : AuditRecord -> J)
    (records : list AuditRecord) (b : Browser J) :
  working b -> loadAuditHistory b = [] ->
  loadAuditHistory (fold_left (fun b r => saveAuditRecord json r b) records b) =
  sliceLast MAX_RECORDS (map json records).
Proof.
  intros Hb Hempty.
  assert (G : forall rs b,
             working b -> (length (loadAuditHistory b) <= MAX_RECORDS)%nat ->
             loadAuditHistory (fold_left (fun b r => saveAuditRecord json r b) rs b) =
             sliceLast MAX_RECORDS (loadAuditHistory b ++ map json rs)).
  { clear. induction rs as [| r rs IH]; intros b Hb Hlen; cbn [fold_left map].
    - rewrite app_nil_r. symmetry. now apply sliceLast_short.
    - destruct (save_working json r b Hb) as [Hb' Hload].
      rewrite IH; [| exact Hb' |].
      + rewrite Hload, sliceLast_app_l, <- app_assoc. reflexivity.
      + rewrite Hload, sliceLast_length. lia. }
  rewrite (G records b Hb); rewrite Hempty; [reflexivity | cbn; lia].
Qed.

Lemma saved_history_is_latest_500_witness :
  loadAuditHistory
    (fold_left (fun b r => saveAuditRecord (fun r => id r) r b)
       [ buildAuditRecord (mkReadings 1 "0.aaaaaaa" 1)
           (analyzeInvoice [scenario_row] scenario_contract) "Delhivery" "a.csv";
         buildAuditRecord (mkReadings 2 "0.bbbbbbb" 2)
           (analyzeInvoice [dual_label_row] scenario_contract) "Delhivery" "b.csv" ]
       (emptyBrowser string)) =
  ["1-aaaaa"; "2-bbbbb"]%string.
Proof.
  rewrite (saved_history_is_latest_500 (fun r => id r)).
  - vm_compute. reflexivity.
  - repeat split.
  - reflexivity.
Defined.

(** Whatever the state of the browser, a save never lets a history of at
    most 500 entries grow beyond 500: either the store is left as it was
    (no window, or the write was refused) or it holds the last 500 of the
    earlier entries and the new one. *)
Theorem saveAuditRecord_keeps_cap {J : Type} (json : AuditRecord -> J)
    (record : AuditRecord) (b : Browser J) :
  (length (loadAuditHistory b) <= 500)%nat ->
  (length (loadAuditHistory (saveAuditRecord json record b)) <= 500)%nat /\
  (saveAuditRecord json record b = b \/
   item (saveAuditRecord json record b) =
     JsonArray (sliceLast MAX_RECORDS (loadAuditHistory b ++ [json record]))).
Proof.
  intros Hlen. unfold saveAuditRecord.
  destruct (hasWindow b) eqn:Hw; cbn [negb]; [| split; [exact Hlen | now left]].
  destruct (accepts b _) eqn:Hacc; [| split; [exact Hlen | now left]].
  split; [| now right].
  unfold loadAuditHistory at 1, loadArray. cbn [setItem hasWindow readable item].
  rewrite Hw. cbn [negb].
  destruct (readable b); cbn [negb length]; [| lia].
  rewrite sliceLast_length. unfold MAX_RECORDS. lia.
Qed.

Lemma saveAuditRecord_keeps_cap_witness :
  (length (loadAuditHistory
             (saveAuditRecord (fun r => id r)
                (buildAuditRecord (mkReadings 1 "0.aaaaaaa" 1)
                   (analyzeInvoice [scenario_row] scenario_contract) "Delhivery" "a.csv")
                (mkBrowser true true (fun _ => false) true (JsonArray ["0-zzzzz"%string]))))
   <= 500)%nat.
Proof.
  apply (saveAuditRecord_keeps_cap (fun r => id r)). cbn. lia.
Defined.

End HistoryFacts.

(** ** csv-normalizer: values, rows and the mapping *)

Module ValueFacts.
Import CsvNormalizer CsvValues.

Lemma stripSpaces_digits (s : string) : allDigits s = true -> stripSpaces s = s.
Proof.
  induction s as [| ch s IH]; cbn [allDigits stripSpaces]; [reflexivity |].
  intros H. apply andb_true_iff in H as [Hch Hs].
  now rewrite (NormalizerFacts.digit_not_space ch Hch), (IH Hs).
Qed.

(** Whatever the cell, a pincode that [normalizePincode] accepts is a
    text of exactly 6 digits, and it is accepted again as it is. *)
Theorem normalizePincode_six_digits (raw : JsValue) (p : string) :
  normalizePincode raw = Some p ->
  String.length p = 6%nat /\ allDigits p = true /\
  normalizePincode (JsString p) = Some p.
Proof.
  intros H.
  assert (Hsix : sixDigits p = true).
  { unfold normalizePincode in H.
    destruct raw as [| | [] | n | s]; try discriminate;
      try (destruct (numberText n); [| discriminate]);
      match type of H with
      | (if sixDigits ?str then _ else _) = _ =>
          destruct (sixDigits str) eqn:E; [| discriminate];
          injection H as <-; exact E
      end. }
  pose proof Hsix as Hsix'. unfold sixDigits in Hsix'.
  apply andb_true_iff in Hsix' as [Hlen Hdigits]. apply Nat.eqb_eq in Hlen.
  split; [exact Hlen |]. split; [exact Hdigits |].
  unfold normalizePincode. rewrite (stripSpaces_digits p Hdigits), Hsix.
  reflexivity.
Qed.

Lemma normalizePincode_six_digits_witness :
  normalizePincode (JsString "110 001") = Some "110001"%string /\
  normalizePincode (JsString "110001") = Some "110001"%string.
Proof.
  assert (H : normalizePincode (JsString "110 001") = Some "110001"%string)
    by reflexivity.
  split; [exact H |].
  exact (proj2 (proj2 (normalizePincode_six_digits _ _ H))).
Defined.

Lemma normalizeWeight_grams_kilograms_witness :
  normalizeWeight (JsString "500g") = (parseFloat "500" / Fin 1000)%num /\
  normalizeWeight (JsString "500kg") = parseFloat "500".
Proof.
  exact (NormalizerFacts.normalizeWeight_grams_kilograms "5" "00" eq_refl).
Defined.

(** *** NaN comes from a number only *)

Lemma parseFloat_digit_start (ch : ascii) (r : string) :
  is_digit ch = true -> is_fin (parseFloat (String ch r)) = true.
Proof.
  intros Hd. unfold parseFloat. cbn [trimStart].
  rewrite (NormalizerFacts.digit_not_space ch Hd).
  assert (Hsign : match String ch r with
                  | String "-" r0 => (true, r0)
                  | String "+" r0 => (false, r0)
                  | _ => (false, String ch r)
                  end = (false, String ch r)).
  { destruct ch as [[] [] [] [] [] [] [] []]; try reflexivity; discriminate Hd. }
  rewrite Hsign.
  assert (Hinf : startsWith "Infinity" (String ch r) = false).
  { cbn [startsWith]. destruct (Ascii.eqb_spec "I" ch) as [<- | _];
      [discriminate Hd | reflexivity]. }
  rewrite Hinf. cbn [spanDigits]. rewrite Hd.
  destruct (spanDigits r) as [ds tail].
  destruct (match tail with String "." r0 => spanDigits r0 | _ => (EmptyString, tail) end)
    as [fp s2].
  reflexivity.
Qed.

Lemma matchNumeral_digit_start (s numeral rest : string) :
  matchNumeral s = Some (numeral, rest) ->
  exists ch r, numeral = String ch r /\ is_digit ch = true.
Proof.
  unfold matchNumeral. destruct s as [| ch s]; [discriminate |].
  cbn [spanDigits]. destruct (is_digit ch) eqn:Hd; [| discriminate].
  destruct (spanDigits s) as [ds tail].
  intros H. exists ch.
  destruct tail as [| c tail']; [injection H as <- _; eauto |].
  destruct (Ascii.eqb_spec c ".") as [-> | Hc].
  - destruct (spanDigits tail') as [fp s3]. injection H as <- _. cbn. eauto.
  - assert (E : match String c tail' with
                | String "." s2 =>
                    let '(fp, s3) := spanDigits s2 in
                    Some ((String ch ds ++ "." ++ fp)%string, s3)
                | _ => Some (String ch ds, String c tail')
                end = Some (String ch ds, String c tail')).
    { destruct c as [[] [] [] [] [] [] [] []]; try reflexivity. now contradiction Hc. }
    rewrite E in H. injection H as <- _. eauto.
Qed.

Lemma gramMatch_digit_start (str g : string) :
  gramMatch str = Some g -> exists ch r, g = String ch r /\ is_digit ch = true.
Proof.
  unfold gramMatch.
  destruct (matchNumeral str) as [[numeral rest] |] eqn:Hm; [| discriminate].
  intros H. destruct (skipSpaces rest) as [| c unit]; [discriminate |].
  destruct c as [[] [] [] [] [] [] [] []]; cbv beta iota in H; try discriminate H.
  destruct (optional "s" (optional "m" (optional "a" (optional "r" unit))));
    [| discriminate].
  injection H as <-. exact (matchNumeral_digit_start _ _ _ Hm).
Qed.

Lemma kgMatch_digit_start (str g : string) :
  kgMatch str = Some g -> exists ch r, g = String ch r /\ is_digit ch = true.
Proof.
  unfold kgMatch.
  destruct (matchNumeral str) as [[numeral rest] |] eqn:Hm; [| discriminate].
  intros H. destruct (skipSpaces rest) as [| c unit]; [discriminate |].
  destruct c as [[] [] [] [] [] [] [] []]; cbv beta iota in H; try discriminate H.
  destruct unit as [| c unit]; [discriminate |].
  destruct c as [[] [] [] [] [] [] [] []]; cbv beta iota in H; try discriminate H.
  destruct (optional "s" unit); [| discriminate].
  injection H as <-. exact (matchNumeral_digit_start _ _ _ Hm).
Qed.

Lemma guarded_not_NaN (n : num) : isNaN (if isNaN n then Fin 0 else n) = false.
Proof. now destruct n. Qed.

Lemma weight_text_not_NaN (text : string) :
  isNaN (match gramMatch (trim (toLowerCase text)) with
         | Some g1 => (parseFloat g1 / Fin 1000)%num
         | None =>
             match kgMatch (trim (toLowerCase text)) with
             | Some g1 => parseFloat g1
             | None =>
                 let n := parseFloat (trim (toLowerCase text)) in
                 if isNaN n then Fin 0 else n
             end
         end) = false.
Proof.
  destruct (gramMatch _) as [g |] eqn:Hg.
  - destruct (gramMatch_digit_start _ _ Hg) as (ch & r & -> & Hd).
    pose proof (parseFloat_digit_start ch r Hd) as Hfin.
    destruct (parseFloat (String ch r)); try discriminate. reflexivity.
  - destruct (kgMatch _) as [g |] eqn:Hk.
    + destruct (kgMatch_digit_start _ _ Hk) as (ch & r & -> & Hd).
      pose proof (parseFloat_digit_start ch r Hd) as Hfin.
      destruct (parseFloat (String ch r)); try discriminate. reflexivity.
    + apply guarded_not_NaN.
Qed.

(** The two number normalizers give NaN for one input only, the number
    NaN itself, which they hand back: no text, boolean or empty cell
    becomes NaN. *)
Theorem normalizers_NaN_only_from_NaN (raw : JsValue) :
  (isNaN (normalizeWeight raw) = true <-> raw = JsNumber NaN) /\
  (isNaN (normalizeAmount raw) = true <-> raw = JsNumber NaN).
Proof.
  split; split.
  - destruct raw as [| | b | n | s]; try discriminate.
    + destruct b; cbn [normalizeWeight]; now rewrite weight_text_not_NaN.
    + cbn [normalizeWeight]. destruct n; try discriminate. reflexivity.
    + destruct s; [discriminate |]. cbn [normalizeWeight].
      now rewrite weight_text_not_NaN.
  - intros ->. reflexivity.
  - destruct raw as [| | b | n | s]; try discriminate.
    + destruct b; cbn [normalizeAmount]; now rewrite guarded_not_NaN.
    + cbn [normalizeAmount]. destruct n; try discriminate. reflexivity.
    + destruct s; [discriminate |]. cbn [normalizeAmount].
      now rewrite guarded_not_NaN.
  - intros ->. reflexivity.
Qed.

(** *** Rows *)

Lemma sixDigits_accepted (p : string) :
  sixDigits p = true -> normalizePincode (JsString p) = Some p.
Proof.
  intros H. pose proof H as H'. unfold sixDigits in H'.
  apply andb_true_iff in H' as [_ Hdigits].
  unfold normalizePincode. now rewrite (stripSpaces_digits p Hdigits), H.
Qed.

Lemma normalizePincode_sixDigits (raw : JsValue) (p : string) :
  normalizePincode raw = Some p -> sixDigits p = true.
Proof.
  unfold normalizePincode. intros H.
  destruct raw as [| | [] | n | s]; try discriminate;
    try (destruct (numberText n); [| discriminate]);
    match type of H with
    | (if sixDigits ?str then _ else _) = _ =>
        destruct (sixDigits str) eqn:E; [| discriminate];
        injection H as <-; exact E
    end.
Qed.

Lemma setNumber_lookup (f : JsValue -> num) (key : string) (out : Row) (k : string) :
  inb key Object_prototype_names = false ->
  setNumber f key out !! k =
  if String.eqb k key then numberCell f <$> (out !! key) else out !! k.
Proof.
  intros Hp. unfold setNumber, hasKey, readCell.
  destruct (String.eqb_spec k key) as [-> | Hne].
  - destruct (out !! key) as [c |] eqn:E.
    + now rewrite lookup_insert_eq.
    + now rewrite Hp, E.
  - destruct (out !! key) as [c |] eqn:E.
    + now rewrite lookup_insert_ne by congruence.
    + now rewrite Hp.
Qed.

Lemma setPincode_lookup (key : string) (out : Row) (k : string) :
  inb key Object_prototype_names = false ->
  setPincode key out !! k =
  if String.eqb k key then out !! key ≫= pincodeCell else out !! k.
Proof.
  intros Hp. unfold setPincode, hasKey, readCell, pincodeCell.
  destruct (String.eqb_spec k key) as [-> | Hne].
  - destruct (out !! key) as [c |] eqn:E.
    + cbn [mbind option_bind]. destruct (normalizePincode (cellValue c)).
      * now rewrite lookup_insert_eq.
      * now rewrite lookup_delete_eq.
    + now rewrite Hp, E.
  - destruct (out !! key) as [c |] eqn:E.
    + destruct (normalizePincode (cellValue c)).
      * now rewrite lookup_insert_ne by congruence.
      * now rewrite lookup_delete_ne by congruence.
    + now rewrite Hp.
Qed.

Lemma setNumber_lookup_eq (f : JsValue -> num) (key : string) (out : Row) :
  inb key Object_prototype_names = false ->
  setNumber f key out !! key = numberCell f <$> (out !! key).
Proof. intros Hp. now rewrite setNumber_lookup, String.eqb_refl. Qed.

Lemma setNumber_lookup_ne (f : JsValue -> num) (key : string) (out : Row) (k : string) :
  inb key Object_prototype_names = false -> String.eqb k key = false ->
  setNumber f key out !! k = out !! k.
Proof. intros Hp Hk. now rewrite setNumber_lookup, Hk. Qed.

Lemma setPincode_lookup_eq (key : string) (out : Row) :
  inb key Object_prototype_names = false ->
  setPincode key out !! key = out !! key ≫= pincodeCell.
Proof. intros Hp. now rewrite setPincode_lookup, String.eqb_refl. Qed.

Lemma setPincode_lookup_ne (key : string) (out : Row) (k : string) :
  inb key Object_prototype_names = false -> String.eqb k key = false ->
  setPincode key out !! k = out !! k.
Proof. intros Hp Hk. now rewrite setPincode_lookup, Hk. Qed.

Ltac through_steps :=
  repeat first
    [ rewrite setPincode_lookup_eq by reflexivity
    | rewrite setNumber_lookup_eq by reflexivity
    | rewrite setPincode_lookup_ne by (reflexivity || assumption)
    | rewrite setNumber_lookup_ne by (reflexivity || assumption) ].

Ltac named k key :=
  let E := fresh "E" in
  destruct (String.eqb k key) eqn:E;
  [ apply String.eqb_eq in E; subst k; through_steps; reflexivity | ].

(** What [normalizeRow] leaves under each name. *)
Lemma normalizeRow_lookup (r : Row) (k : string) :
  normalizeRow r !! k = normalizedCell k (r !! k).
Proof.
  unfold normalizeRow.
  named k "BilledWeight"%string. named k "ActualWeight"%string.
  named k "TotalBilledAmount"%string. named k "CODAmount"%string.
  named k "Length"%string. named k "Width"%string. named k "Height"%string.
  named k "OriginPincode"%string. named k "DestPincode"%string.
  through_steps. unfold normalizedCell, pincodeKeys, inb. cbn [existsb].
  repeat match goal with
         | H : String.eqb k _ = false |- _ => rewrite H; clear H
         end.
  reflexivity.
Qed.
Lemma normalizedCell_twice (key : string) (held : option Cell) :
  normalizedCell key (normalizedCell key held) = normalizedCell key held.
Proof.
  unfold normalizedCell.
  destruct (inb key _); [now destruct held |].
  destruct (inb key _); [now destruct held |].
  destruct (inb key _); [| reflexivity].
  destruct held as [c |]; [| reflexivity]. cbn [mbind option_bind].
  unfold pincodeCell at 2 3.
  destruct (normalizePincode (cellValue c)) as [p |] eqn:E; [| reflexivity].
  cbn [mbind option_bind]. unfold pincodeCell. cbn [cellValue].
  now rewrite (sixDigits_accepted p (normalizePincode_sixDigits _ _ E)).
Qed.

(** Normalizing rows a second time changes nothing. *)
Theorem normalizeRows_idempotent (rows : list Row) :
  normalizeRows (normalizeRows rows) = normalizeRows rows.
Proof.
  unfold normalizeRows. rewrite List.map_map. apply List.map_ext. intros r.
  apply map_eq. intros k. rewrite !normalizeRow_lookup. apply normalizedCell_twice.
Qed.

(** A field of a normalized row was a field of the row before; under a
    weight, amount or dimension name it holds a number, under a pincode
    name a text of 6 digits, and under any other name what the row held. *)
Theorem normalizeRow_fields (r : Row) (key : string) (cell : Cell) :
  normalizeRow r !! key = Some cell ->
  (exists held, r !! key = Some held) /\
  (In key numberKeys -> exists n, cell = Value (JsNumber n)) /\
  (In key pincodeKeys ->
   exists p, cell = Value (JsString p) /\ String.length p = 6%nat /\
             allDigits p = true) /\
  (~ In key (numberKeys ++ pincodeKeys) -> r !! key = Some cell).
Proof.
  rewrite normalizeRow_lookup. intros H.
  assert (Hheld : exists held, r !! key = Some held).
  { destruct (r !! key) as [held |]; [eauto |].
    unfold normalizedCell in H.
    repeat match type of H with
           | (if ?b then _ else _) = _ => destruct b
           end; discriminate. }
  destruct Hheld as [held Hheld]. rewrite Hheld in H |- *.
  split; [eauto |]. split; [| split].
  - intros Hin. unfold numberKeys in Hin. cbn [In] in Hin.
    destruct Hin as [<- | [<- | [<- | [<- | [<- | [<- | [<- | []]]]]]]];
      injection H as <-; unfold numberCell; eauto.
  - intros Hin. unfold pincodeKeys in Hin. cbn [In] in Hin.
    assert (Hp : pincodeCell held = Some cell)
      by (destruct Hin as [<- | [<- | []]]; exact H).
    unfold pincodeCell in Hp.
    destruct (normalizePincode (cellValue held)) as [p |] eqn:E; [| discriminate].
    injection Hp as <-. exists p. split; [reflexivity |].
    pose proof (normalizePincode_sixDigits _ _ E) as Hsix. unfold sixDigits in Hsix.
    apply andb_true_iff in Hsix as [Hlen Hdigits]. apply Nat.eqb_eq in Hlen. eauto.
  - intros Hnot. unfold normalizedCell in H.
    assert (Hnum : forall l, incl l (numberKeys ++ pincodeKeys) -> inb key l = false).
    { intros l Hl. unfold inb. apply not_true_is_false. intros Hex.
      apply existsb_exists in Hex as (x & Hx & Heq). apply String.eqb_eq in Heq.
      subst x. exact (Hnot (Hl _ Hx)). }
    rewrite !Hnum in H; [exact H | | |];
      intros x Hx; unfold numberKeys, pincodeKeys in *; cbn [In app] in *; tauto.
Qed.

Lemma normalizeRow_fields_witness :
  exists p, Value (JsString "110001") = Value (JsString p) /\
            String.length p = 6%nat /\ allDigits p = true.
Proof.
  refine (proj1 (proj2 (proj2
            (normalizeRow_fields
               (<[ "OriginPincode"%string := Value (JsString "110 001") ]> ∅)
               "OriginPincode" (Value (JsString "110001")) _))) _).
  - vm_compute; reflexivity.
  - left; reflexivity.
Defined.

(** *** The mapping *)

Lemma remapRow_lookup (mapping : gmap string (option string)) (row : Row)
    (canonical : string) (cell : Cell) :
  remapRow mapping row !! canonical = Some cell ->
  exists rawKey, mapping !! canonical = Some (Some rawKey) /\ rawKey <> ""%string /\
                 cell = readCell row rawKey.
Proof.
  unfold remapRow. rewrite map_lookup_imap.
  destruct (mapping !! canonical) as [[rawKey |] |]; cbn [mbind option_bind];
    try discriminate.
  destruct (String.eqb_spec rawKey ""); cbn [negb andb]; [discriminate |].
  destruct (hasKey row rawKey); cbn [andb]; [| discriminate].
  destruct (negb _); [| discriminate].
  intros H. injection H as <-. eauto.
Qed.

Lemma kept_row_has (out : Row) (key : string) :
  inb key Object_prototype_names = false ->
  notNull (readCell out key) = true ->
  exists cell, out !! key = Some cell /\ notNull cell = true.
Proof.
  unfold readCell. intros Hp. destruct (out !! key) as [cell |]; [eauto |].
  rewrite Hp. discriminate.
Qed.

(** Every row that [applyMapping] gives comes from a row of the input:
    each of its fields is what that row holds under the header the
    mapping names for the field, and its AWB and TotalBilledAmount are
    mapped and neither null nor undefined. *)
Theorem applyMapping_rows (rows : list Row) (mapping : gmap string (option string))
    (out : Row) :
  In out (applyMapping rows mapping) ->
  exists row, In row rows /\
    (forall canonical cell, out !! canonical = Some cell ->
       exists rawKey, mapping !! canonical = Some (Some rawKey) /\
                      rawKey <> ""%string /\ cell = readCell row rawKey) /\
    (forall key, key = "AWB"%string \/ key = "TotalBilledAmount"%string ->
       exists rawKey, mapping !! key = Some (Some rawKey) /\
                      out !! key = Some (readCell row rawKey) /\
                      notNull (readCell row rawKey) = true).
Proof.
  unfold applyMapping. intros H. apply List.filter_In in H as [Hin Hkept].
  apply List.in_map_iff in Hin as (row & <- & Hrow).
  exists row. split; [exact Hrow |]. split.
  - intros canonical cell. apply remapRow_lookup.
  - apply andb_true_iff in Hkept as [Hawb Hamount].
    intros key [-> | ->].
    + destruct (kept_row_has _ "AWB" eq_refl Hawb) as (cell & Hcell & Hnn).
      destruct (remapRow_lookup _ _ _ _ Hcell) as (rawKey & Hmap & _ & ->). eauto.
    + destruct (kept_row_has _ "TotalBilledAmount" eq_refl Hamount)
        as (cell & Hcell & Hnn).
      destruct (remapRow_lookup _ _ _ _ Hcell) as (rawKey & Hmap & _ & ->). eauto.
Qed.

Lemma applyMapping_rows_witness :
  exists row, In row [sample_raw_row] /\
    (forall canonical cell,
       remapRow sample_mapping sample_raw_row !! canonical = Some cell ->
       exists rawKey, sample_mapping !! canonical = Some (Some rawKey) /\
                      rawKey <> ""%string /\ cell = readCell row rawKey) /\
    (forall key, key = "AWB"%string \/ key = "TotalBilledAmount"%string ->
       exists rawKey, sample_mapping !! key = Some (Some rawKey) /\
                      remapRow sample_mapping sample_raw_row !! key
                      = Some (readCell row rawKey) /\
                      notNull (readCell row rawKey) = true).
Proof.
  apply (applyMapping_rows [sample_raw_row] sample_mapping).
  unfold applyMapping. cbn [map].
  assert (E : notNull (readCell (remapRow sample_mapping sample_raw_row) "AWB")
              && notNull (readCell (remapRow sample_mapping sample_raw_row)
                            "TotalBilledAmount") = true)
    by (vm_compute; reflexivity).
  cbn [List.filter]. rewrite E. left; reflexivity.
Defined.

(** After [applyMapping] and then [normalizeRows], as the upload does,
    every row has an AWB that is neither null nor undefined and a
    TotalBilledAmount that is a number. *)
Theorem mapped_rows_are_billable (rows : list Row)
    (mapping : gmap string (option string)) (out : Row) :
  In out (normalizeRows (applyMapping rows mapping)) ->
  (exists cell, out !! "AWB"%string = Some cell /\ notNull cell = true) /\
  (exists n, out !! "TotalBilledAmount"%string = Some (Value (JsNumber n))).
Proof.
  unfold normalizeRows, applyMapping. intros H.
  apply List.in_map_iff in H as (mapped & <- & Hin).
  apply List.filter_In in Hin as [_ Hkept].
  apply andb_true_iff in Hkept as [Hawb Hamount].
  destruct (kept_row_has _ "AWB" eq_refl Hawb) as (cell & Hcell & Hnn).
  destruct (kept_row_has _ "TotalBilledAmount" eq_refl Hamount) as (amount & Ha & _).
  rewrite !normalizeRow_lookup, Hcell, Ha. split; [exists cell; split |].
  - reflexivity.
  - exact Hnn.
  - eexists. reflexivity.
Qed.

Lemma mapped_rows_are_billable_witness :
  (exists cell, normalizeRow (remapRow sample_mapping sample_raw_row) !! "AWB"%string
                = Some cell /\ notNull cell = true) /\
  (exists n, normalizeRow (remapRow sample_mapping sample_raw_row)
               !! "TotalBilledAmount"%string = Some (Value (JsNumber n))).
Proof.
  apply (mapped_rows_are_billable [sample_raw_row] sample_mapping).
  unfold normalizeRows, applyMapping. cbn [map].
  assert (E : notNull (readCell (remapRow sample_mapping sample_raw_row) "AWB")
              && notNull (readCell (remapRow sample_mapping sample_raw_row)
                            "TotalBilledAmount") = true)
    by (vm_compute; reflexivity).
  cbn [List.filter]. rewrite E. left; reflexivity.
Defined.

End ValueFacts.

(** ** weight-regression: sampling, grouping and the stored points *)

Module WeightFacts.
Import LocalStorage WeightRegression WeightData.

(** *** [sampleForDisplay] *)

Lemma sample_step (len maxN : nat) :
  (0 < maxN)%nat ->
  inject_Z (Z.of_nat len) / inject_Z (Z.of_nat maxN) * inject_Z (Z.of_nat maxN)
  == inject_Z (Z.of_nat len).
Proof.
  intros H. field. intros E.
  assert (H0 : 0 < inject_Z (Z.of_nat maxN)).
  { change 0 with (inject_Z 0). rewrite <- Zlt_Qlt. lia. }
  rewrite E in H0. now apply Qlt_irrefl in H0.
Qed.

Lemma sampleIndex_floor (len maxN i : nat) :
  Z.of_nat (sampleIndex len maxN i)
  = Qfloor (inject_Z (Z.of_nat i)
            * (inject_Z (Z.of_nat len) / inject_Z (Z.of_nat maxN))).
Proof.
  unfold sampleIndex. cbv zeta. apply Z2Nat.id.
  change 0%Z with (Qfloor (inject_Z 0)). apply Qfloor_resp_le.
  apply Qmult_le_0_compat.
  - change 0 with (inject_Z 0). rewrite <- Zle_Qle. lia.
  - destruct maxN as [| m].
    + unfold Qdiv. cbn. rewrite Qmult_0_r. apply Qle_refl.
    + apply Qle_shift_div_l.
      * change 0 with (inject_Z 0). rewrite <- Zlt_Qlt. lia.
      * rewrite Qmult_0_l. change 0 with (inject_Z 0). rewrite <- Zle_Qle. lia.
Qed.
Lemma sample_step_above_one (len maxN : nat) :
  (0 < maxN < len)%nat ->
  1 < inject_Z (Z.of_nat len) / inject_Z (Z.of_nat maxN).
Proof.
  intros H. apply Qlt_shift_div_l.
  - change 0 with (inject_Z 0). rewrite <- Zlt_Qlt. lia.
  - rewrite Qmult_1_l. rewrite <- Zlt_Qlt. lia.
Qed.

Lemma sampleIndex_in_range (len maxN i : nat) :
  (maxN < len)%nat -> (i < maxN)%nat -> (sampleIndex len maxN i < len)%nat.
Proof.
  intros Hlen Hi. apply Nat2Z.inj_lt. rewrite sampleIndex_floor.
  set (s := inject_Z (Z.of_nat len) / inject_Z (Z.of_nat maxN)).
  pose proof (sample_step len maxN ltac:(lia)) as Hs. fold s in Hs.
  pose proof (sample_step_above_one len maxN ltac:(lia)) as Hs1. fold s in Hs1.
  pose proof (Qfloor_le (inject_Z (Z.of_nat i) * s)) as Hfloor.
  assert (Hi' : inject_Z (Z.of_nat i) + 1 <= inject_Z (Z.of_nat maxN)).
  { change 1 with (inject_Z 1). rewrite <- inject_Z_plus, <- Zle_Qle. lia. }
  assert (Hprod : (inject_Z (Z.of_nat i) + 1) * s <= inject_Z (Z.of_nat maxN) * s).
  { apply Qmult_le_compat_r; [exact Hi' | lra]. }
  rewrite Zlt_Qlt. lra.
Qed.

Lemma sampleIndex_increasing (len maxN i j : nat) :
  (0 < maxN < len)%nat -> (i < j)%nat ->
  (sampleIndex len maxN i < sampleIndex len maxN j)%nat.
Proof.
  intros Hlen Hij. apply Nat2Z.inj_lt. rewrite !sampleIndex_floor.
  set (s := inject_Z (Z.of_nat len) / inject_Z (Z.of_nat maxN)).
  pose proof (sample_step_above_one len maxN Hlen) as Hs1. fold s in Hs1.
  pose proof (Qfloor_le (inject_Z (Z.of_nat i) * s)) as Hfloor.
  pose proof (Qlt_floor (inject_Z (Z.of_nat j) * s)) as Hceil.
  rewrite inject_Z_plus in Hceil. change (inject_Z 1) with 1 in Hceil.
  assert (Hij' : inject_Z (Z.of_nat i) + 1 <= inject_Z (Z.of_nat j)).
  { change 1 with (inject_Z 1). rewrite <- inject_Z_plus, <- Zle_Qle. lia. }
  assert (Hprod : (inject_Z (Z.of_nat i) + 1) * s <= inject_Z (Z.of_nat j) * s).
  { apply Qmult_le_compat_r; [exact Hij' | lra]. }
  rewrite Zlt_Qlt. lra.
Qed.

(** Reading a list at strictly increasing positions inside it gives a
    sublist. *)
Lemma increasing_reads {A : Type} (points : list A) :
  forall (base : nat) (indices : list nat),
    StronglySorted lt indices ->
    Forall (fun i => (base <= i < base + length points)%nat) indices ->
    exists l, map (fun i => nth_error points (i - base)) indices = map Some l /\
              sublist l points.
Proof.
  induction points as [| p ps IH]; intros base indices Hsorted Hrange.
  - destruct indices as [| i rest].
    + exists []. split; [reflexivity | constructor].
    + apply List.Forall_inv in Hrange. cbn in Hrange. lia.
  - destruct indices as [| i rest].
    + exists []. split; [reflexivity | apply sublist_nil_l].
    + pose proof (StronglySorted_inv Hsorted) as [Hrest Hall].
      pose proof (List.Forall_inv Hrange) as Hi.
      pose proof (List.Forall_inv_tail Hrange) as Hrange'.
      cbn [length] in Hi.
      assert (Hshift : forall l, Forall (fun j => (S base <= j)%nat) l ->
                map (fun j => nth_error (p :: ps) (j - base)) l
                = map (fun j => nth_error ps (j - S base)) l).
      { intros l Hl. apply List.map_ext_in. intros j Hj.
        rewrite List.Forall_forall in Hl. specialize (Hl j Hj).
        replace (j - base)%nat with (S (j - S base)) by lia. reflexivity. }
      destruct (Nat.eq_dec i base) as [-> | Hne].
      * assert (Hlow : Forall (fun j => (S base <= j)%nat) rest).
        { rewrite List.Forall_forall in Hall |- *. intros j Hj.
          specialize (Hall j Hj). lia. }
        destruct (IH (S base) rest Hrest) as (l & Hl & Hsub).
        { rewrite List.Forall_forall in Hrange', Hlow |- *. intros j Hj.
          specialize (Hrange' j Hj). specialize (Hlow j Hj).
          cbn [length] in Hrange'. lia. }
        exists (p :: l). split; [| now apply sublist_skip].
        cbn [map]. rewrite Nat.sub_diag. cbn [nth_error].
        now rewrite (Hshift rest Hlow), Hl.
      * assert (Hlow : Forall (fun j => (S base <= j)%nat) (i :: rest)).
        { apply List.Forall_cons; [lia |].
          rewrite List.Forall_forall in Hall |- *. intros j Hj.
          specialize (Hall j Hj). lia. }
        destruct (IH (S base) (i :: rest) Hsorted) as (l & Hl & Hsub).
        { rewrite List.Forall_forall in Hrange, Hlow |- *. intros j Hj.
          specialize (Hrange j Hj). specialize (Hlow j Hj).
          cbn [length] in Hrange. lia. }
        exists l. split; [| now apply sublist_cons].
        now rewrite (Hshift (i :: rest) Hlow).
Qed.

Lemma increasing_map_seq (f : nat -> nat) :
  forall n start,
    (forall i j, (start <= i)%nat -> (i < j)%nat -> (j < start + n)%nat ->
                 (f i < f j)%nat) ->
    StronglySorted lt (map f (seq start n)).
Proof.
  induction n as [| n IH]; intros start Hf; cbn [seq map]; constructor.
  - apply IH. intros i j Hi Hij Hj. apply Hf; lia.
  - rewrite List.Forall_forall. intros y Hy.
    apply List.in_map_iff in Hy as (j & <- & Hj). apply List.in_seq in Hj.
    apply Hf; lia.
Qed.

(** The sample is a sublist of the points, so every element of it is a
    point of the input, none is [undefined], none is taken twice and the
    order is kept; it has [maxN] elements, or all the points when there are
    no more than [maxN]. *)
Theorem sampleForDisplay_sublist (points : list WeightDataPoint) (maxN : nat) :
  exists l, sampleForDisplay points maxN = map Some l /\
            sublist l points /\
            length l = Nat.min (length points) maxN.
Proof.
  unfold sampleForDisplay.
  destruct (Nat.leb_spec (length points) maxN) as [Hle | Hgt].
  - exists points. split; [reflexivity |]. split; [reflexivity | lia].
  - destruct maxN as [| m].
    + exists []. split; [reflexivity |]. split; [apply sublist_nil_l | ].
      cbn [length]. lia.
    + set (maxN := S m) in *.
      destruct (increasing_reads points 0
                  (map (sampleIndex (length points) maxN) (seq 0 maxN)))
        as (l & Hl & Hsub).
      * apply increasing_map_seq. intros i j _ Hij _.
        apply sampleIndex_increasing; lia.
      * rewrite List.Forall_forall. intros y Hy.
        apply List.in_map_iff in Hy as (i & <- & Hi). apply List.in_seq in Hi.
        pose proof (sampleIndex_in_range (length points) maxN i Hgt ltac:(lia)).
        lia.
      * exists l. split; [| split; [exact Hsub |]].
        -- rewrite <- Hl, List.map_map. apply List.map_ext. intros i.
           now rewrite Nat.sub_0_r.
        -- apply (f_equal (@length _)) in Hl.
           rewrite !length_map, length_seq in Hl. lia.
Qed.

(** *** [groupByProvider] *)

Lemma get_app (k : string) (m m' : Groups) :
  get k (m ++ m') = match get k m with Some v => Some v | None => get k m' end.
Proof.
  induction m as [| [k0 v] m IH]; cbn [app get]; [reflexivity |].
  now destruct (String.eqb k0 k).
Qed.

Lemma get_pushTo (k : string) (p : WeightDataPoint) (m : Groups) (k' : string) :
  get k' (pushTo k p m)
  = if String.eqb k k' then (fun v => v ++ [p]) <$> get k' m else get k' m.
Proof.
  induction m as [| [k0 v] m IH]; cbn [pushTo get].
  - now destruct (String.eqb k k').
  - destruct (String.eqb_spec k0 k) as [-> | Hne]; cbn [get].
    + destruct (String.eqb_spec k k') as [-> | Hne']; reflexivity.
    + destruct (String.eqb_spec k0 k') as [-> | Hne'].
      * destruct (String.eqb_spec k k') as [-> | _]; [now contradiction Hne |].
        reflexivity.
      * exact IH.
Qed.

Lemma keys_pushTo (k : string) (p : WeightDataPoint) (m : Groups) :
  map fst (pushTo k p m) = map fst m.
Proof.
  induction m as [| [k0 v] m IH]; cbn [pushTo map]; [reflexivity |].
  destruct (String.eqb k0 k); cbn [map fst]; [reflexivity | now rewrite IH].
Qed.

Lemma get_None (k : string) (m : Groups) :
  get k m = None -> ~ In k (map fst m).
Proof.
  induction m as [| [k0 v] m IH]; cbn [get map fst In]; [tauto |].
  destruct (String.eqb_spec k0 k) as [-> | Hne]; [discriminate |].
  intros H [E | Hin]; [now contradiction Hne | exact (IH H Hin)].
Qed.

Lemma get_In (k : string) (g : list WeightDataPoint) (m : Groups) :
  get k m = Some g -> In (k, g) m.
Proof.
  induction m as [| [k0 v] m IH]; cbn [get In]; [discriminate |].
  destruct (String.eqb_spec k0 k) as [-> | Hne].
  - intros H. injection H as <-. now left.
  - intros H. right. exact (IH H).
Qed.

Lemma In_get (k : string) (g : list WeightDataPoint) (m : Groups) :
  List.NoDup (map fst m) -> In (k, g) m -> get k m = Some g.
Proof.
  induction m as [| [k0 v] m IH]; cbn [get In map fst]; [tauto |].
  intros Hnd [E | Hin].
  - injection E as -> ->. now rewrite String.eqb_refl.
  - apply List.NoDup_cons_iff in Hnd as [Hk0 Hnd].
    destruct (String.eqb_spec k0 k) as [-> | Hne]; [| exact (IH Hnd Hin)].
    contradiction Hk0. apply List.in_map_iff. now exists (k, g).
Qed.

Lemma NoDup_snoc (k : string) (l : list string) :
  ~ In k l -> List.NoDup l -> List.NoDup (l ++ [k]).
Proof.
  induction l as [| x l IH]; cbn [app In]; intros Hk Hnd.
  - constructor; [tauto | constructor].
  - apply List.NoDup_cons_iff in Hnd as [Hx Hnd]. apply List.NoDup_cons_iff. split.
    + rewrite List.in_app_iff. cbn [In]. intros [H | [H | []]]; [tauto |].
      apply Hk. now left.
    + apply IH; [tauto | exact Hnd].
Qed.

Lemma keys_groupStep (m : Groups) (p : WeightDataPoint) :
  List.NoDup (map fst m) -> List.NoDup (map fst (groupStep m p)).
Proof.
  unfold groupStep. intros Hnd. destruct (get (provider p) m) eqn:E.
  - now rewrite keys_pushTo.
  - rewrite List.map_app. cbn [map fst]. apply NoDup_snoc; [| exact Hnd].
    exact (get_None _ _ E).
Qed.

Lemma get_groupStep (m : Groups) (p : WeightDataPoint) (k : string) :
  get k (groupStep m p)
  = if String.eqb (provider p) k
    then Some (match get k m with Some v => v ++ [p] | None => [p] end)
    else get k m.
Proof.
  unfold groupStep. destruct (get (provider p) m) as [v |] eqn:E.
  - rewrite get_pushTo. destruct (String.eqb_spec (provider p) k) as [<- | _];
      [now rewrite E | reflexivity].
  - rewrite get_app. cbn [get].
    destruct (String.eqb_spec (provider p) k) as [<- | _].
    + now rewrite E.
    + now destruct (get k m).
Qed.

Lemma fold_groups (points : list WeightDataPoint) :
  forall m : Groups,
    List.NoDup (map fst m) ->
    List.NoDup (map fst (fold_left groupStep points m)) /\
    forall k, get k (fold_left groupStep points m)
              = match get k m with
                | Some v => Some (v ++ pointsOf k points)
                | None => match pointsOf k points with
                          | [] => None
                          | g => Some g
                          end
                end.
Proof.
  induction points as [| p points IH]; intros m Hnd; cbn [fold_left].
  - split; [exact Hnd |]. intros k. cbn [pointsOf List.filter].
    destruct (get k m); [now rewrite List.app_nil_r | reflexivity].
  - destruct (IH (groupStep m p) (keys_groupStep m p Hnd)) as [Hkeys Hget].
    split; [exact Hkeys |]. intros k. rewrite Hget, get_groupStep.
    unfold pointsOf. cbn [List.filter].
    destruct (String.eqb (provider p) k).
    + destruct (get k m); [now rewrite <- List.app_assoc | reflexivity].
    + reflexivity.
Qed.

Lemma groupByProvider_get (points : list WeightDataPoint) (k : string) :
  get k (groupByProvider points)
  = match pointsOf k points with [] => None | g => Some g end.
Proof. exact (proj2 (fold_groups points [] (List.NoDup_nil _)) k). Qed.

Lemma groupByProvider_keys (points : list WeightDataPoint) :
  List.NoDup (map fst (groupByProvider points)).
Proof. exact (proj1 (fold_groups points [] (List.NoDup_nil _))). Qed.

(** The map has one entry for each provider that occurs in the points and
    no other: no key comes twice, and an entry holds all the points of
    its provider and only them, in their order. *)
Theorem groupByProvider_entries (points : list WeightDataPoint) :
  List.NoDup (map fst (groupByProvider points)) /\
  forall k g, In (k, g) (groupByProvider points) <->
              g = pointsOf k points /\ g <> [].
Proof.
  split; [apply groupByProvider_keys |]. intros k g. split.
  - intros Hin. apply (In_get _ _ _ (groupByProvider_keys points)) in Hin.
    rewrite groupByProvider_get in Hin.
    destruct (pointsOf k points); [discriminate |].
    injection Hin as <-. split; [reflexivity | discriminate].
  - intros [-> Hne]. apply get_In. rewrite groupByProvider_get.
    now destruct (pointsOf k points).
Qed.

(** The regression of a group, when there is one, carries the name the
    group is filed under and counts all the points of that provider. *)
Theorem group_regression_provider (points : list WeightDataPoint) (k : string)
    (g : list WeightDataPoint) (r : RegressionResult) :
  In (k, g) (groupByProvider points) ->
  runRegression g = Return (Some r) ->
  result_provider r = k /\ pointCount r = length (pointsOf k points).
Proof.
  intros Hin Hrun. apply (In_get _ _ _ (groupByProvider_keys points)) in Hin.
  rewrite groupByProvider_get in Hin.
  destruct (pointsOf k points) as [| p0 rest] eqn:Hg; [discriminate |].
  injection Hin as <-.
  assert (Hp0 : provider p0 = k).
  { assert (Hmem : In p0 (pointsOf k points)) by (rewrite Hg; now left).
    apply List.filter_In in Hmem as [_ Heq]. now apply String.eqb_eq in Heq. }
  unfold runRegression in Hrun. cbv zeta in Hrun.
  destruct (length (p0 :: rest) <? MIN_POINTS_FOR_REGRESSION)%nat; [discriminate |].
  destruct (eqb (denom (p0 :: rest)) (Fin 0)); [discriminate |].
  destruct (fold_left _ _ _) as [ssTot ssRes].
  injection Hrun as <-. cbn [result_provider pointCount]. now split.
Qed.

Lemma group_regression_provider_witness :
  exists r, runRegression sample30 = Return (Some r) /\
            result_provider r = "Delhivery"%string /\ pointCount r = 30%nat.
Proof.
  assert (Hin : In ("Delhivery"%string, sample30) (groupByProvider sample30))
    by (vm_compute; left; reflexivity).
  destruct (runRegression sample30) as [[r |] | msg] eqn:Hrun;
    [| vm_compute in Hrun; discriminate Hrun | vm_compute in Hrun; discriminate Hrun].
  exists r. split; [reflexivity |].
  destruct (group_regression_provider sample30 _ _ r Hin Hrun) as [Hname Hcount].
  split; [exact Hname | rewrite Hcount; vm_compute; reflexivity].
Defined.

(** *** The stored points *)

Lemma store_working {J : Type} (json : WeightDataPoint -> J)
    (newPoints : list WeightDataPoint) (b : Browser J) :
  working b ->
  working (storeWeightData json newPoints b) /\
  loadWeightData (storeWeightData json newPoints b) =
    match newPoints with
    | [] => loadWeightData b
    | _ => sliceLast MAX_RECORDS (loadWeightData b ++ map json newPoints)
    end.
Proof.
  intros (Hw & Hr & Hrm & Hacc).
  unfold storeWeightData. rewrite Hw, Hacc. cbn [negb orb].
  destruct newPoints as [| p rest]; cbn [length Nat.eqb].
  - split; [repeat split; assumption | reflexivity].
  - split; [repeat split; assumption |].
    unfold loadWeightData at 1, loadArray.
    cbn [setItem hasWindow readable item]. now rewrite Hw, Hr.
Qed.

(** Storing batches of points one after the other in a working browser
    that starts without stored points leaves the last 10000 points of all
    the batches together, oldest first; an empty batch changes nothing. *)
Theorem stored_points_are_latest_10000 {J : Type} (json : WeightDataPoint -> J)
    (batches : list (list WeightDataPoint)) (b : Browser J) :
  working b -> loadWeightData b = [] ->
  loadWeightData (fold_left (fun b new => storeWeightData json new b) batches b) =
  sliceLast MAX_RECORDS (map json (concat batches)).
Proof.
  intros Hb Hempty.
  assert (G : forall bs b,
             working b -> (length (loadWeightData b) <= MAX_RECORDS)%nat ->
             loadWeightData (fold_left (fun b new => storeWeightData json new b) bs b) =
             sliceLast MAX_RECORDS (loadWeightData b ++ map json (concat bs))).
  { clear. induction bs as [| new bs IH]; intros b Hb Hlen; cbn [fold_left concat map].
    - rewrite List.app_nil_r. symmetry. now apply HistoryFacts.sliceLast_short.
    - destruct (store_working json new b Hb) as [Hb' Hload].
      rewrite IH; [| exact Hb' |].
      + rewrite Hload. destruct new as [| p rest]; [reflexivity |].
        rewrite HistoryFacts.sliceLast_app_l, List.map_app, List.app_assoc.
        reflexivity.
      + rewrite Hload. destruct new as [| p rest]; [exact Hlen |].
        rewrite HistoryFacts.sliceLast_length. lia. }
  rewrite (G batches b Hb); [now rewrite Hempty | rewrite Hempty; cbn; lia].
Qed.

Lemma stored_points_are_latest_10000_witness :
  loadWeightData
    (fold_left (fun b new => storeWeightData (fun p => p) new b)
       [[point 100 110]; []; [point 0 500]] (emptyBrowser WeightDataPoint)) =
  sliceLast MAX_RECORDS
    (map (fun p => p) (concat [[point 100 110]; []; [point 0 500]])).
Proof.
  apply (stored_points_are_latest_10000 (fun p => p)).
  - repeat split; reflexivity.
  - reflexivity.
Defined.

End WeightFacts.

(** ** column-matcher: distances and scores *)

Module ScoreFacts.
Import ColumnMatcher ColumnScores.

(** *** [levenshtein] *)

Lemma levRow_bounded (ai : ascii) (b : string) :
  forall (prev : list nat) (left i j0 : nat),
    (forall k x, nth_error prev k = Some x -> (x <= Nat.max i (j0 + k))%nat) ->
    forall k x, nth_error (levRow ai b prev left) k = Some x ->
                (x <= Nat.max (S i) (S j0 + k))%nat.
Proof.
  induction b as [| bj b IH]; intros prev left i j0 Hprev k x;
    [destruct k; discriminate |].
  destruct prev as [| diag [| up prev']]; cbn [levRow];
    [destruct k; discriminate | destruct k; discriminate |].
  pose proof (Hprev 0%nat diag eq_refl) as Hdiag.
  destruct k as [| k]; cbn [nth_error].
  - intros H. injection H as <-. destruct (Ascii.eqb ai bj); lia.
  - intros H.
    apply (IH (up :: prev') _ i (S j0)) in H; [lia |].
    intros k' x' Hk'. specialize (Hprev (S k') x' Hk'). lia.
Qed.

Lemma levRows_bounded (b : string) :
  forall (a : string) (i : nat) (prev : list nat),
    (1 <= i)%nat ->
    (forall k x, nth_error prev k = Some x -> (x <= Nat.max (i - 1) k)%nat) ->
    forall k x, nth_error (levRows a b i prev) k = Some x ->
                (x <= Nat.max (i - 1 + String.length a) k)%nat.
Proof.
  induction a as [| ai a IH]; intros i prev Hi Hprev k x; cbn [levRows String.length].
  - intros H. specialize (Hprev k x H). lia.
  - intros H. apply IH in H; [lia | lia |].
    intros k' x'. destruct k' as [| k']; cbn [nth_error].
    + intros E. injection E as <-. lia.
    + intros E. apply (levRow_bounded ai b prev i (i - 1) 0) in E; [lia |].
      intros k0 x0 H0. specialize (Hprev k0 x0 H0). lia.
Qed.

Lemma seq_read (n k x : nat) : nth_error (seq 0 n) k = Some x -> x = k.
Proof.
  intros H.
  assert (Hk : (k < length (seq 0 n))%nat)
    by (apply List.nth_error_Some; congruence).
  rewrite length_seq in Hk.
  apply (List.nth_error_nth _ _ 0%nat) in H. rewrite List.seq_nth in H by exact Hk.
  lia.
Qed.

Lemma levenshtein_at_most (a b : string) :
  (levenshtein a b <= Nat.max (String.length a) (String.length b))%nat.
Proof.
  unfold levenshtein. cbv zeta.
  set (rows := levRows a b 1 (seq 0 (S (String.length b)))).
  destruct (nth_error rows (String.length b)) as [x |] eqn:E.
  - rewrite (List.nth_error_nth _ _ 0%nat E).
    apply (levRows_bounded b a 1) in E; [lia | lia |].
    intros k y Hy. apply seq_read in Hy. lia.
  - apply List.nth_error_None in E. rewrite List.nth_overflow by exact E. lia.
Qed.

Lemma levRows_no_columns (a : string) :
  forall i x, nth 0 (levRows a "" i [x]) 0%nat
              = match a with EmptyString => x | _ => (i + String.length a - 1)%nat end.
Proof.
  induction a as [| ai a IH]; intros i x; cbn [levRows levRow String.length];
    [reflexivity |].
  rewrite IH. destruct a; cbn [String.length]; lia.
Qed.

(** The distance is never more than the length of the longer text, so
    the score [1 - dist / maxLen] is never negative; against the empty
    text it is the length of the other text. *)
Theorem levenshtein_bounds (a b : string) :
  (levenshtein a b <= Nat.max (String.length a) (String.length b))%nat /\
  levenshtein a "" = String.length a /\
  levenshtein "" b = String.length b.
Proof.
  split; [apply levenshtein_at_most |]. split.
  - unfold levenshtein. cbn [String.length seq].
    rewrite levRows_no_columns. destruct a; cbn [String.length]; lia.
  - unfold levenshtein. cbn [levRows]. cbv zeta.
    rewrite List.seq_nth by lia. reflexivity.
Qed.

(** *** [similarity] *)

Lemma distinct_app_longer (l1 l2 : list string) :
  forall seen, (length (distinct seen l1) <= length (distinct seen (l1 ++ l2)))%nat.
Proof.
  induction l1 as [| w l1 IH]; intros seen; cbn [distinct app length]; [lia |].
  destruct (inb w seen); cbn [length]; [apply IH |].
  specialize (IH (w :: seen)). lia.
Qed.

Lemma distinct_again (l : list string) :
  forall seen seen',
    (forall w, inb w seen' = true -> inb w seen = true) ->
    distinct seen' (distinct seen l) = distinct seen l.
Proof.
  induction l as [| w l IH]; intros seen seen' Hsub; cbn [distinct]; [reflexivity |].
  destruct (inb w seen) eqn:E; [now apply IH |].
  cbn [distinct].
  destruct (inb w seen') eqn:E'; [apply Hsub in E'; congruence |].
  f_equal. apply IH. intros x. unfold inb. cbn [existsb].
  destruct (String.eqb x w); [reflexivity |]. cbn [orb]. apply Hsub.
Qed.

Lemma filter_shorter {A : Type} (f : A -> bool) (l : list A) :
  (length (List.filter f l) <= length l)%nat.
Proof.
  induction l as [| x l IH]; cbn [List.filter length]; [lia |].
  destruct (f x); cbn [length]; lia.
Qed.

(** The words two texts share are no more than the words of both. *)
Lemma intersection_le_union (na nb : string) :
  (length (List.filter (fun w => inb w (wordSet nb)) (wordSet na))
   <= length (distinct [] (wordSet na ++ wordSet nb)))%nat.
Proof.
  etransitivity; [apply filter_shorter |].
  etransitivity; [| apply distinct_app_longer].
  unfold wordSet at 2. rewrite distinct_again by (intros w; discriminate).
  reflexivity.
Qed.

Lemma unit_one : unitScore (Fin 1).
Proof. exists 1. split; [reflexivity |]. split; discriminate. Qed.

Lemma inject_nat_zero (n : nat) :
  (1 <= n)%nat -> Qeq_bool (inject_Z (Z.of_nat n)) 0 = false.
Proof.
  intros H. apply not_true_is_false. intros E. apply Qeq_bool_eq in E.
  unfold Qeq in E. cbn [Qnum Qden inject_Z] in E. lia.
Qed.

Lemma ratio_unit (i u : nat) :
  (i <= u)%nat -> (1 <= u)%nat ->
  0 <= inject_Z (Z.of_nat i) / inject_Z (Z.of_nat u) <= 1.
Proof.
  intros Hiu Hu.
  assert (Hpos : 0 < inject_Z (Z.of_nat u)).
  { change 0 with (inject_Z 0). rewrite <- Zlt_Qlt. lia. }
  split.
  - apply Qle_shift_div_l; [exact Hpos |]. rewrite Qmult_0_l.
    change 0 with (inject_Z 0). rewrite <- Zle_Qle. lia.
  - apply Qle_shift_div_r; [exact Hpos |]. rewrite Qmult_1_l.
    rewrite <- Zle_Qle. lia.
Qed.

Lemma similarity_unit (a b : string) : unitScore (similarity a b).
Proof.
  unfold similarity. cbv zeta.
  set (na := normalise a). set (nb := normalise b).
  destruct (String.eqb na nb); [apply unit_one |].
  destruct (includes na nb || includes nb na).
  { exists (9 # 10). split; [reflexivity |]. split; discriminate. }
  pose proof (intersection_le_union na nb) as Hle.
  set (i := length (List.filter (fun w => inb w (wordSet nb)) (wordSet na))) in *.
  set (u := length (distinct [] (wordSet na ++ wordSet nb))) in *.
  destruct (Nat.ltb_spec 0 i) as [Hi | Hi].
  - pose proof (ratio_unit i u Hle ltac:(lia)) as [Hlo Hhi].
    unfold of_nat, of_Z, div. rewrite (inject_nat_zero u) by lia.
    change (dec 55 2) with (Fin (11 # 20)). change (dec 35 2) with (Fin (7 # 20)).
    unfold mul, add, fin. eexists. split; [reflexivity |].
    rewrite !Qred_correct.
    set (r := inject_Z (Z.of_nat i) / inject_Z (Z.of_nat u)) in *.
    split; lra.
  - destruct (Nat.max (String.length na) (String.length nb) =? 0)%nat eqn:Hmax;
      [apply unit_one |].
    apply Nat.eqb_neq in Hmax.
    set (d := levenshtein na nb).
    set (len := Nat.max (String.length na) (String.length nb)) in *.
    pose proof (ratio_unit d len (levenshtein_at_most na nb) ltac:(lia)) as [Hlo Hhi].
    unfold of_nat, of_Z, div. rewrite (inject_nat_zero len) by lia.
    unfold sub, fin, Math_max.
    set (r := inject_Z (Z.of_nat d) / inject_Z (Z.of_nat len)) in *.
    destruct (Fin 0 <=? Fin (Qred (1 - Qred r)))%num.
    + eexists. split; [reflexivity |]. rewrite !Qred_correct. split; lra.
    + exists 0. split; [reflexivity |]. split; discriminate.
Qed.

Lemma append_cons (c : ascii) (s t : string) :
  (String c s ++ t)%string = String c (s ++ t)%string.
Proof. reflexivity. Qed.

Lemma append_empty_r (s : string) : (s ++ "")%string = s.
Proof.
  induction s as [| ch s IH]; [reflexivity |]. now rewrite append_cons, IH.
Qed.

Lemma append_assoc (s t u : string) : ((s ++ t) ++ u)%string = (s ++ (t ++ u))%string.
Proof.
  induction s as [| ch s IH]; [reflexivity |]. now rewrite !append_cons, IH.
Qed.

Lemma append_length (s t : string) :
  String.length (s ++ t) = (String.length s + String.length t)%nat.
Proof.
  induction s as [| ch s IH]; [reflexivity |].
  rewrite append_cons. cbn [String.length]. now rewrite IH.
Qed.

(** An entry 0 in the table of distances stands where the two prefixes
    are the same text. *)
Lemma levRow_zero (ai : ascii) :
  forall (brest : string) (prev : list nat) (left : nat) (pa pb : string),
    (forall k, nth_error prev k = Some 0%nat ->
       exists pre post, brest = (pre ++ post)%string /\ String.length pre = k /\
                        pa = (pb ++ pre)%string) ->
    forall k, nth_error (levRow ai brest prev left) k = Some 0%nat ->
      exists pre post, brest = (pre ++ post)%string /\ String.length pre = S k /\
                       (pa ++ String ai "")%string = (pb ++ pre)%string.
Proof.
  induction brest as [| bj b' IH]; intros prev left pa pb Hprev k;
    [destruct k; discriminate |].
  destruct prev as [| diag [| up prev']]; cbn [levRow];
    [destruct k; discriminate | destruct k; discriminate |].
  destruct k as [| k]; cbn [nth_error].
  - intros H. injection H as H.
    destruct (Ascii.eqb_spec ai bj) as [<- | _]; [| discriminate].
    subst diag. destruct (Hprev 0%nat eq_refl) as (pre & post & _ & Hlen & ->).
    destruct pre; [| discriminate]. rewrite append_empty_r.
    exists (String ai ""), b'. repeat split.
  - intros H.
    apply (IH (up :: prev') _ pa (pb ++ String bj "")%string) in H.
    + destruct H as (pre & post & -> & Hlen & Heq).
      exists (String bj pre), post. split; [reflexivity |].
      split; [cbn [String.length]; now rewrite Hlen |].
      rewrite Heq. now rewrite append_assoc.
    + intros k' Hk'. destruct (Hprev (S k') Hk') as (pre & post & Hb & Hlen & ->).
      destruct pre as [| c pre]; [discriminate |].
      cbn [String.append] in Hb. injection Hb as <- ->.
      exists pre, post. split; [reflexivity |].
      split; [cbn [String.length] in Hlen; lia |].
      now rewrite append_assoc.
Qed.

Lemma levRows_zero (b : string) :
  forall (a pa : string) (i : nat) (prev : list nat),
    (1 <= i)%nat ->
    (forall k, nth_error prev k = Some 0%nat ->
       exists pre post, b = (pre ++ post)%string /\ String.length pre = k /\ pa = pre) ->
    forall k, nth_error (levRows a b i prev) k = Some 0%nat ->
      exists pre post, b = (pre ++ post)%string /\ String.length pre = k /\
                       (pa ++ a)%string = pre.
Proof.
  induction a as [| ai a IH]; intros pa i prev Hi Hprev k; cbn [levRows].
  - intros H. destruct (Hprev k H) as (pre & post & Hb & Hlen & ->).
    exists pre, post. now rewrite append_empty_r.
  - intros H. apply (IH (pa ++ String ai "")%string) in H.
    + destruct H as (pre & post & Hb & Hlen & Heq). exists pre, post.
      split; [exact Hb |]. split; [exact Hlen |].
      now rewrite <- Heq, append_assoc.
    + lia.
    + intros k' Hk'. destruct k' as [| k']; cbn [nth_error] in Hk'.
      * injection Hk' as Hk'. lia.
      * apply (levRow_zero ai b prev i pa "") in Hk'.
        -- destruct Hk' as (pre & post & Hb & Hlen & Heq). now exists pre, post.
        -- intros k0 H0. destruct (Hprev k0 H0) as (pre & post & Hb & Hlen & ->).
           now exists pre, post.
Qed.

Lemma levRow_length (ai : ascii) :
  forall (b : string) (prev : list nat) (left : nat),
    length prev = S (String.length b) ->
    length (levRow ai b prev left) = String.length b.
Proof.
  induction b as [| bj b IH]; intros prev left Hlen; [now destruct prev |].
  destruct prev as [| diag [| up prev']]; cbn [String.length length] in Hlen;
    [lia | lia |].
  cbn [levRow length String.length]. rewrite IH; [reflexivity |].
  cbn [length]. lia.
Qed.

Lemma levRows_length (b : string) :
  forall (a : string) (i : nat) (prev : list nat),
    length prev = S (String.length b) ->
    length (levRows a b i prev) = S (String.length b).
Proof.
  induction a as [| ai a IH]; intros i prev Hlen; cbn [levRows]; [exact Hlen |].
  apply IH. cbn [length]. now rewrite levRow_length.
Qed.

Lemma levenshtein_zero (a b : string) : levenshtein a b = 0%nat -> a = b.
Proof.
  unfold levenshtein. cbv zeta.
  set (rows := levRows a b 1 (seq 0 (S (String.length b)))).
  assert (Hlen : length rows = S (String.length b))
    by (apply levRows_length, length_seq).
  destruct (nth_error rows (String.length b)) as [x |] eqn:E.
  - rewrite (List.nth_error_nth _ _ 0%nat E). intros ->.
    apply (levRows_zero b a "" 1) in E; [| lia |].
    + destruct E as (pre & post & Hb & Hpre & Ha). cbn [String.append] in Ha. subst pre.
      assert (Hpost : String.length post = 0%nat).
      { apply (f_equal String.length) in Hb. rewrite append_length in Hb. lia. }
      destruct post; [| discriminate]. now rewrite append_empty_r in Hb.
    + intros k Hk. apply seq_read in Hk. subst k. now exists EmptyString, b.
  - apply List.nth_error_None in E. lia.
Qed.

(** The score is a finite number between 0 and 1, and it is 1 for the
    texts that are the same once normalised and for no others. *)
Theorem similarity_range (a b : string) :
  unitScore (similarity a b) /\
  (similarity a b = Fin 1 <-> normalise a = normalise b).
Proof.
  split; [apply similarity_unit |].
  unfold similarity. cbv zeta.
  set (na := normalise a). set (nb := normalise b).
  destruct (String.eqb_spec na nb) as [E | Hne]; [tauto |].
  split; [| tauto]. intros H. exfalso.
  destruct (includes na nb || includes nb na); [discriminate |].
  pose proof (intersection_le_union na nb) as Hle.
  set (i := length (List.filter (fun w => inb w (wordSet nb)) (wordSet na))) in *.
  set (u := length (distinct [] (wordSet na ++ wordSet nb))) in *.
  destruct (Nat.ltb_spec 0 i) as [Hi | Hi].
  - pose proof (ratio_unit i u Hle ltac:(lia)) as [Hlo Hhi].
    unfold of_nat, of_Z, div in H. rewrite (inject_nat_zero u) in H by lia.
    change (dec 55 2) with (Fin (11 # 20)) in H.
    change (dec 35 2) with (Fin (7 # 20)) in H.
    unfold mul, add, fin in H. injection H as H.
    set (r := inject_Z (Z.of_nat i) / inject_Z (Z.of_nat u)) in *.
    assert (Hq : (11 # 20) + Qred (Qred r * (7 # 20)) == 1)
      by (rewrite <- (Qred_correct (_ + _)), H; reflexivity).
    rewrite !Qred_correct in Hq. lra.
  - destruct (Nat.max (String.length na) (String.length nb) =? 0)%nat eqn:Hmax.
    + apply Nat.eqb_eq in Hmax. apply Hne.
      destruct na, nb; cbn [String.length] in Hmax; try lia. reflexivity.
    + apply Nat.eqb_neq in Hmax.
      pose proof (levenshtein_zero na nb) as Hzero.
      set (d := levenshtein na nb) in *.
      set (len := Nat.max (String.length na) (String.length nb)) in *.
      pose proof (ratio_unit d len (levenshtein_at_most na nb) ltac:(lia)) as [Hlo Hhi].
      unfold of_nat, of_Z, div in H. rewrite (inject_nat_zero len) in H by lia.
      unfold sub, fin, Math_max in H.
      destruct (Fin 0 <=? Fin (Qred (1 - Qred (inject_Z (Z.of_nat d) / inject_Z (Z.of_nat len)))))%num;
        [| discriminate].
      injection H as H.
      assert (Hq : 1 - Qred (inject_Z (Z.of_nat d) / inject_Z (Z.of_nat len)) == 1)
        by (rewrite <- (Qred_correct (_ - _)), H; reflexivity).
      rewrite Qred_correct in Hq.
      assert (Hd : d = 0%nat).
      { destruct d as [| d']; [reflexivity | exfalso].
        assert (Hpos : 0 < inject_Z (Z.of_nat (S d')) / inject_Z (Z.of_nat len)).
        { apply Qlt_shift_div_l.
          - change 0 with (inject_Z 0). rewrite <- Zlt_Qlt. lia.
          - rewrite Qmult_0_l. change 0 with (inject_Z 0). rewrite <- Zlt_Qlt. lia. }
        lra. }
      exact (Hne (Hzero Hd)).
Qed.

(** *** [detectColumns] *)

Lemma bestScore_unit (canonical : string) (variations : list string) (raw : string) :
  unitScore (bestScore canonical variations raw).
Proof.
  unfold bestScore.
  generalize (similarity_unit raw canonical). generalize (similarity raw canonical).
  induction variations as [| v vs IH]; intros best Hbest; cbn [fold_left];
    [exact Hbest |].
  apply IH. cbv zeta.
  destruct (similarity raw v >? best)%num; [apply similarity_unit | exact Hbest].
Qed.

Lemma candidatesFor_from (rawHeaders : list string) (canonical : string) :
  Forall (fun c => In (raw c) rawHeaders /\ unitScore (score c))
         (candidatesFor rawHeaders canonical).
Proof.
  unfold candidatesFor. apply MatcherFacts.sortCandidates_Forall.
  set (variations := default [] (assoc canonical VARIATIONS)).
  set (P := fun c => In (raw c) rawHeaders /\ unitScore (score c)).
  assert (G : forall hs cands,
             incl hs rawHeaders -> Forall P cands ->
             Forall P
               (fold_left
                  (fun cands raw =>
                     let best := bestScore canonical variations raw in
                     if (best >=? dec 4 1)%num
                     then cands ++ [ {| raw := raw; score := best |} ]
                     else cands)
                  hs cands)).
  { induction hs as [| h hs IH]; intros cands Hhs Hc; cbn [fold_left]; [exact Hc |].
    apply IH; [intros x Hx; apply Hhs; now right |]. cbv zeta.
    destruct (bestScore canonical variations h >=? dec 4 1)%num; [| exact Hc].
    apply Forall_app. split; [exact Hc |]. repeat constructor.
    - apply Hhs. now left.
    - apply bestScore_unit. }
  apply G; [apply incl_refl | constructor].
Qed.

Lemma assign_from (rawHeaders : list string) (st : Assignment) (canonical : string) :
  ((forall f h, a_mapping st !! f = Some (Some h) -> In h rawHeaders) /\
   (forall f s, a_confidences st !! f = Some s -> unitScore s)) ->
  (forall f h, a_mapping (assign (buildCandidates rawHeaders) st canonical) !! f
               = Some (Some h) -> In h rawHeaders) /\
  (forall f s, a_confidences (assign (buildCandidates rawHeaders) st canonical) !! f
               = Some s -> unitScore s).
Proof.
  intros [Hmap Hconf]. unfold assign.
  assert (Hc : Forall (fun c => In (raw c) rawHeaders /\ unitScore (score c))
                 (default [] (buildCandidates rawHeaders !! canonical))).
  { unfold buildCandidates. rewrite MatcherFacts.buildCandidates_lookup.
    destruct (bool_decide (canonical ∈ ALL_CANONICAL)); cbn [default].
    - apply candidatesFor_from.
    - rewrite lookup_empty. constructor. }
  destruct (List.find _ (default [] (buildCandidates rawHeaders !! canonical)))
    as [top |] eqn:Hfind;
    cbn [a_mapping a_confidences].
  - apply List.find_some in Hfind as [Hin _].
    rewrite List.Forall_forall in Hc. destruct (Hc top Hin) as [Htop Hscore].
    split.
    + intros f h. destruct (decide (canonical = f)) as [<- | Hne].
      * rewrite lookup_insert_eq. intros [= <-]. exact Htop.
      * rewrite lookup_insert_ne by exact Hne. apply Hmap.
    + intros f s. destruct (decide (canonical = f)) as [<- | Hne].
      * rewrite lookup_insert_eq. intros [= <-]. exact Hscore.
      * rewrite lookup_insert_ne by exact Hne. apply Hconf.
  - split.
    + intros f h. destruct (decide (canonical = f)) as [<- | Hne].
      * rewrite lookup_insert_eq. discriminate.
      * rewrite lookup_insert_ne by exact Hne. apply Hmap.
    + intros f s. destruct (decide (canonical = f)) as [<- | Hne].
      * rewrite lookup_insert_eq. intros [= <-]. exists 0. split; [reflexivity |].
        split; discriminate.
      * rewrite lookup_insert_ne by exact Hne. apply Hconf.
Qed.

Lemma detectColumns_from (rawHeaders : list string) :
  (forall f h, mapping (detectColumns rawHeaders) !! f = Some (Some h) ->
               In h rawHeaders) /\
  (forall f s, confidences (detectColumns rawHeaders) !! f = Some s -> unitScore s).
Proof.
  assert (G : forall fields st,
             ((forall f h, a_mapping st !! f = Some (Some h) -> In h rawHeaders) /\
              (forall f s, a_confidences st !! f = Some s -> unitScore s)) ->
             (forall f h,
                a_mapping (fold_left (assign (buildCandidates rawHeaders)) fields st) !! f
                = Some (Some h) -> In h rawHeaders) /\
             (forall f s,
                a_confidences (fold_left (assign (buildCandidates rawHeaders)) fields st)
                  !! f = Some s -> unitScore s)).
  { induction fields as [| c fields IH]; intros st Hst; cbn [fold_left]; [exact Hst |].
    apply IH. now apply assign_from. }
  apply (G ALL_CANONICAL (mkAssignment ∅ ∅ ∅)).
  split; intros f x; cbn [a_mapping a_confidences]; rewrite lookup_empty; discriminate.
Qed.

(** A header that [detectColumns] maps a field to is one of the raw
    headers it was given, and the confidence that goes with it is a finite
    number between 0 and 1. *)
Theorem detectColumns_headers (rawHeaders : list string) (f h : string) :
  mapping (detectColumns rawHeaders) !! f = Some (Some h) ->
  In h rawHeaders /\
  exists s, confidences (detectColumns rawHeaders) !! f = Some s /\ unitScore s.
Proof.
  intros Hf. destruct (detectColumns_from rawHeaders) as [Hmap Hconf].
  split; [exact (Hmap f h Hf) |].
  destruct (MatcherFacts.detectColumns_assigned rawHeaders)
    as (st & Hinv & Em & Ec & _).
  pose proof (mapped_confidence st Hinv f) as Hmc.
  rewrite <- Em, <- Ec, Hf in Hmc.
  destruct (confidences (detectColumns rawHeaders) !! f) as [s |] eqn:Es;
    [| contradiction].
  exists s. split; [reflexivity | exact (Hconf f s Es)].
Qed.

Lemma detectColumns_headers_witness :
  In "Weight"%string sample_headers /\
  exists s, confidences (detectColumns sample_headers) !! "BilledWeight"%string = Some s /\
            unitScore s.
Proof.
  apply (detectColumns_headers sample_headers "BilledWeight" "Weight").
  vm_compute; reflexivity.
Defined.

Lemma filter_empty {A : Type} (p : A -> bool) (l : list A) :
  List.filter p l = [] -> forall x, In x l -> p x = false.
Proof.
  induction l as [| y l IH]; cbn [List.filter In]; [tauto |].
  destruct (p y) eqn:E; [discriminate |].
  intros H x [<- | Hx]; [exact E | exact (IH H x Hx)].
Qed.

Lemma NoDup_map_on {A B : Type} (f : A -> B) (l : list A) :
  List.NoDup l ->
  (forall x y, In x l -> In y l -> f x = f y -> x = y) ->
  List.NoDup (map f l).
Proof.
  induction 1 as [| x l Hx Hl IH]; intros Hinj; cbn [map]; constructor.
  - intros Hin. apply List.in_map_iff in Hin as (y & Hy & Hyl).
    assert (y = x) by (apply Hinj; [now right | now left | exact Hy]).
    subst y. contradiction.
  - apply IH. intros a b Ha Hb. apply Hinj; now right.
Qed.

Lemma review_fields (rawHeaders : list string) :
  needsManualReview (detectColumns rawHeaders) = false ->
  forall f, In f REQUIRED_CANONICAL ->
    (default (Fin 0) (confidences (detectColumns rawHeaders) !! f)
     <? CONFIDENCE_THRESHOLD)%num = false /\
    mapping (detectColumns rawHeaders) !! f <> Some None.
Proof.
  unfold detectColumns. cbv zeta. cbn [needsManualReview mapping confidences].
  set (st := fold_left (assign (buildCandidates rawHeaders)) ALL_CANONICAL
               (mkAssignment ∅ ∅ ∅)).
  intros Hreview f Hf.
  destruct (List.filter _ REQUIRED_CANONICAL) as [| x l] eqn:Hlow;
    [| cbn [length Nat.ltb Nat.leb] in Hreview; discriminate Hreview].
  pose proof (filter_empty _ _ Hlow f Hf) as Hpred. cbv beta in Hpred.
  apply orb_false_iff in Hpred as [Hconf Hnull].
  apply bool_decide_eq_false in Hnull. now split.
Qed.

Lemma required_accepted (rawHeaders : list string) (f : string) :
  needsManualReview (detectColumns rawHeaders) = false ->
  In f REQUIRED_CANONICAL ->
  exists h q, mapping (detectColumns rawHeaders) !! f = Some (Some h) /\
              In h rawHeaders /\
              confidences (detectColumns rawHeaders) !! f = Some (Fin q) /\
              (8 # 10) <= q <= 1.
Proof.
  intros Hreview Hf.
  destruct (review_fields rawHeaders Hreview f Hf) as [Hconf Hnull].
  destruct (detectColumns_from rawHeaders) as [Hmap Hunit].
  destruct (MatcherFacts.detectColumns_assigned rawHeaders)
    as (st & Hinv & Em & Ec & Hkeys).
  assert (Hall : f ∈ ALL_CANONICAL).
  { apply list_elem_of_In. unfold ALL_CANONICAL. apply List.in_or_app. now left. }
  destruct (Hkeys f Hall) as [m Hm]. rewrite <- Em in Hm.
  destruct m as [h |]; [| contradiction].
  pose proof (mapped_confidence st Hinv f) as Hmc.
  rewrite <- Em, <- Ec, Hm in Hmc.
  destruct (confidences (detectColumns rawHeaders) !! f) as [s |] eqn:Es;
    [| contradiction].
  destruct (Hunit f s Es) as (q & -> & Hq0 & Hq1).
  exists h, q. split; [exact Hm |]. split; [exact (Hmap f h Hm) |].
  split; [reflexivity |]. split; [| exact Hq1].
  cbn [default] in Hconf. unfold ltb, CONFIDENCE_THRESHOLD in Hconf.
  change (dec 8 1) with (Fin (4 # 5)) in Hconf.
  apply negb_false_iff, Qle_bool_iff in Hconf.
  assert (E : 8 # 10 == 4 # 5) by reflexivity. rewrite E. exact Hconf.
Qed.

(** When no manual review is asked for, every required field is mapped
    to a raw header with a confidence of 0.8 or more, to seven different
    headers in all: a file with fewer than seven headers always goes to
    manual review. *)
Theorem accepted_without_review (rawHeaders : list string) :
  needsManualReview (detectColumns rawHeaders) = false ->
  (forall f, In f REQUIRED_CANONICAL ->
     exists h q, mapping (detectColumns rawHeaders) !! f = Some (Some h) /\
                 In h rawHeaders /\
                 confidences (detectColumns rawHeaders) !! f = Some (Fin q) /\
                 (8 # 10) <= q <= 1) /\
  List.NoDup (map (mappedTo (detectColumns rawHeaders)) REQUIRED_CANONICAL) /\
  (7 <= length rawHeaders)%nat.
Proof.
  intros Hreview.
  pose proof (fun f => required_accepted rawHeaders f Hreview) as Hreq.
  split; [exact Hreq |].
  assert (Hmapped : forall f, In f REQUIRED_CANONICAL ->
            mapping (detectColumns rawHeaders) !! f
            = Some (Some (mappedTo (detectColumns rawHeaders) f))).
  { intros f Hf. destruct (Hreq f Hf) as (h & q & Hm & _).
    unfold mappedTo. now rewrite Hm. }
  assert (Hnodup : List.NoDup (map (mappedTo (detectColumns rawHeaders))
                                 REQUIRED_CANONICAL)).
  { apply NoDup_map_on.
    - unfold REQUIRED_CANONICAL.
      repeat (constructor; [cbn [In]; intuition discriminate |]). constructor.
    - intros f g Hf Hg Heq.
      destruct (MatcherFacts.detectColumns_assigned rawHeaders)
        as (st & Hinv & Em & _ & _).
      apply (mapped_once st Hinv f g (mappedTo (detectColumns rawHeaders) f)).
      + rewrite <- Em. now apply Hmapped.
      + rewrite <- Em, Heq. now apply Hmapped. }
  split; [exact Hnodup |].
  change 7%nat with (length (map (mappedTo (detectColumns rawHeaders))
                               REQUIRED_CANONICAL)).
  apply List.NoDup_incl_length; [exact Hnodup |].
  intros h Hh. apply List.in_map_iff in Hh as (f & <- & Hf).
  destruct (Hreq f Hf) as (h & q & Hm & Hin & _).
  unfold mappedTo. rewrite Hm. exact Hin.
Qed.

Lemma accepted_without_review_witness :
  (7 <= length complete_headers)%nat.
Proof.
  refine (proj2 (proj2 (accepted_without_review complete_headers _))).
  vm_compute; reflexivity.
Defined.

End ScoreFacts.

(** ** Clearing the stores *)

Module StoreFacts.
Import LocalStorage WeightRegression.

(** In a working browser, clearing empties the store: the history and
    the stored points load as empty lists, and what is saved next is all
    the store then holds. *)
Theorem cleared_store_starts_over {J K : Type}
    (json : AuditHistory.AuditRecord -> J) (pjson : WeightDataPoint -> K)
    (record : AuditHistory.AuditRecord) (newPoints : list WeightDataPoint)
    (b : Browser J) (w : Browser K) :
  working b -> working w ->
  AuditHistory.loadAuditHistory (AuditHistory.clearAuditHistory b) = [] /\
  AuditHistory.loadAuditHistory
    (AuditHistory.saveAuditRecord json record (AuditHistory.clearAuditHistory b))
  = [json record] /\
  WeightData.loadWeightData (WeightData.clearWeightData w) = [] /\
  WeightData.loadWeightData
    (WeightData.storeWeightData pjson newPoints (WeightData.clearWeightData w))
  = sliceLast WeightData.MAX_RECORDS (map pjson newPoints).
Proof.
  intros (Hw & Hr & Hrm & Hacc) (Hw' & Hr' & Hrm' & Hacc').
  assert (Hb : working (AuditHistory.clearAuditHistory b)).
  { unfold AuditHistory.clearAuditHistory, clearItem. rewrite Hw, Hrm.
    repeat split; assumption. }
  assert (Hc : working (WeightData.clearWeightData w)).
  { unfold WeightData.clearWeightData, clearItem. rewrite Hw', Hrm'.
    repeat split; assumption. }
  assert (E1 : AuditHistory.loadAuditHistory (AuditHistory.clearAuditHistory b) = []).
  { unfold AuditHistory.loadAuditHistory, AuditHistory.clearAuditHistory, clearItem,
      loadArray. rewrite Hw, Hrm. cbn. now rewrite Hw, Hr. }
  assert (E2 : WeightData.loadWeightData (WeightData.clearWeightData w) = []).
  { unfold WeightData.loadWeightData, WeightData.clearWeightData, clearItem,
      loadArray. rewrite Hw', Hrm'. cbn. now rewrite Hw', Hr'. }
  split; [exact E1 |]. split; [| split; [exact E2 |]].
  - destruct (HistoryFacts.save_working json record _ Hb) as [_ ->].
    rewrite E1. reflexivity.
  - destruct (WeightFacts.store_working pjson newPoints _ Hc) as [_ ->].
    rewrite E2. destruct newPoints; reflexivity.
Qed.

Lemma cleared_store_starts_over_witness :
  AuditHistory.loadAuditHistory
    (AuditHistory.clearAuditHistory
       (mkBrowser true true (fun _ => true) true (JsonArray ["old"%string]))) = [] /\
  WeightData.loadWeightData
    (WeightData.storeWeightData (fun p => p) [point 100 110]
       (WeightData.clearWeightData
          (mkBrowser true true (fun _ => true) true (JsonArray [point 0 500]))))
  = sliceLast WeightData.MAX_RECORDS (map (fun p => p) [point 100 110]).
Proof.
  destruct (cleared_store_starts_over
              (fun r => AuditHistory.id r) (fun p => p)
              (AuditHistory.buildAuditRecord (AuditHistory.mkReadings 1 "0.aaaaaaa" 1)
                 (analyzeInvoice [scenario_row] scenario_contract) "Delhivery" "a.csv")
              [point 100 110]
              (mkBrowser true true (fun _ => true) true (JsonArray ["old"%string]))
              (mkBrowser true true (fun _ => true) true (JsonArray [point 0 500])))
    as (H1 & _ & _ & H4); [repeat split | repeat split |].
  split; [exact H1 | exact H4].
Defined.

End StoreFacts.

(* ================================================================== *)
(** * Properties on binary64 numbers                                    *)
(* ================================================================== *)

Module DoubleFacts.
Import Double.

(** ** billing-engine: the tolerance *)


(** The tolerance test and the COD test disagree.  A Prepaid shipment of
    0.03 kg in zone A billed 2.2, with its zones and weights in order, is
    flagged: [2.2 - 1.2] is 1.0000000000000002, not [<= 1].  The COD test
    [2.2 > 1.2 + 1] compares 2.2 with 2.2 and fails, no reason is pushed,
    and the overcharge of a Prepaid shipment gets the catch-all label
    "Rate Overcharge", with a difference of 1. *)
Theorem prepaid_overcharge_labelled_rate_overcharge :
  (rowDifference scenario_contract thin_margin_row <=? of_Z 1)%double = false /\
  (TotalBilledAmount thin_margin_row
   >? expectedFreight scenario_contract thin_margin_row + of_Z 1)%double = false /\
  analyzeInvoice [thin_margin_row] scenario_contract =
  {| discrepancies :=
       [ {| awb_number := "X1"; issue_type := "Rate Overcharge";
            billed_amount := dec 22 1; correct_amount := dec 12 1;
            difference := of_Z 1 |} ];
     totalOvercharge := of_Z 1;
     totalRows := 1;
     totalBilled := dec 22 1 |}.
Proof. repeat split; vm_compute; reflexivity. Qed.

(** ** weight-regression: degenerate inputs *)

(** C4 fails on the numbers the code computes with.  On thirty points
    with the same declared weight 0.1 (billed 0.11) the sums are rounded,
    the denominator [n * sumX2 - sumX * sumX] is -1.78e-15 and not 0, and
    [runRegression] returns a record, with slope -1 and R2 0.75, where
    "no result" is due.  On thirty points with the declared weights
    [1e200 * i] the sum of the squares overflows, the denominator is NaN,
    which is not [=== 0], and the record returned has NaN for its slope,
    its intercept and its R2. *)
Theorem runRegression_degenerate_inputs_give_records :
  (denom identical_weights =? of_Z 0)%double = false /\
  runRegression identical_weights =
  Return (Some {| result_provider := "Delhivery"; pointCount := 30;
                  slope := of_Z (-1); intercept := dec 21 2; r2 := dec 75 2;
                  avgOverchargePct := of_Z 10 |}) /\
  runRegression large_weights =
  Return (Some {| result_provider := "Delhivery"; pointCount := 30;
                  slope := NaN; intercept := NaN; r2 := NaN;
                  avgOverchargePct := of_Z (-100) |}).
Proof.
  split; [| split]; vm_compute; reflexivity.
Qed.

(** ** audit-history: the even split *)












(** A discrepancy of 10 with two labels brings 5 to each of its two
    buckets.  The run of the engine on a shipment overbilled by 2.01 under
    two labels brings 2.01 / 2 to each, stored as 1.00499999999999989, and
    each bucket rounds to 1.00. *)
Example dual_label_halves :
  categorizeOvercharge
    [discrepancyOf (mkLabelled "X3" ZoneMismatch [WeightOvercharge]
                      (of_Z 100) (of_Z 90) (of_Z 10))]
  = mkOverchargeByType (of_Z 5) (of_Z 5) (of_Z 0) (of_Z 0) (of_Z 0) (of_Z 0) /\
  discrepancies (analyzeInvoice [two_label_row] scenario_contract)
  = [discrepancyOf (mkLabelled "X1" ZoneMismatch [InvalidCODCharge]
                      (dec 5701 2) (of_Z 55) (dec 201 2))] /\
  categorizeOvercharge (discrepancies (analyzeInvoice [two_label_row] scenario_contract))
  = mkOverchargeByType (of_Z 0) (of_Z 1) (of_Z 0) (of_Z 1) (of_Z 0) (of_Z 0).
Proof. repeat split; vm_compute; reflexivity. Qed.



End DoubleFacts.
